(** * SceneDatabase: the scene store of [database/db_handler.py]

    A shallow embedding of the [SceneDatabase] class and of the part of
    the sqlite3 connection it drives, followed by the properties of the
    store.

    The class is a thin layer over one [sqlite3.Connection]; what its
    methods do is decided by three things that the embedding spells out:

    - the rows of the five tables, read and written through SQL
      statements with positional parameters;
    - the transaction the connection opens silently before the first
      INSERT, UPDATE or DELETE, which [commit] makes durable and
      [rollback] discards; [with self.conn:] commits when its body ends
      normally and rolls back when it raises, and it does so at every
      nesting level;
    - the Python exceptions raised on the way ([KeyError] from a missing
      dictionary key, the sqlite3 errors from a rejected statement). *)

From Stdlib Require Import QArith.
From stdpp Require Import gmap strings list fin_maps sorting.

#[local] Open Scope Z_scope.

(** ** SQL values *)

(** What a column of a row holds and what a statement parameter binds:
    [None], an [int], a [float] or a [str]. An integer is one that
    SQLite's 64-bit INTEGER holds, where binding and reading back leave
    it as it is. A finite float is a rational number, which is how
    [VReal] carries it. *)
Inductive value : Type :=
  | VNull
  | VInt (z : Z)
  | VReal (q : Q)
  | VText (s : string).

#[global] Instance Q_eq_dec : EqDecision Q.
Proof. solve_decision. Defined.

#[global] Instance value_eq_dec : EqDecision value.
Proof. solve_decision. Defined.

Abbreviation row := (list value).

(** The number a numeric value stands for. *)
Definition numeric (v : value) : Q :=
  match v with
  | VInt z => inject_Z z
  | VReal q => q
  | _ => 0%Q
  end.

(** The order SQLite sorts by and compares with: NULL first, then the
    numbers by magnitude (integers and reals together), then the texts
    byte by byte. *)
Definition value_compare (a b : value) : comparison :=
  match a, b with
  | VNull, VNull => Eq
  | VNull, _ => Lt
  | _, VNull => Gt
  | VText s, VText t => String.compare s t
  | VText _, _ => Gt
  | _, VText _ => Lt
  | _, _ => Qcompare (numeric a) (numeric b)
  end.

Definition value_leb (a b : value) : bool :=
  match value_compare a b with
  | Gt => false
  | _ => true
  end.

Definition is_null (v : value) : bool :=
  match v with
  | VNull => true
  | _ => false
  end.

(** The comparison operators of a WHERE or ON clause. A comparison with
    NULL is unknown, and a row is kept only when the condition is true. *)
Definition sql_eq (a b : value) : bool :=
  negb (is_null a) && negb (is_null b) &&
  match value_compare a b with
  | Eq => true
  | _ => false
  end.

Definition sql_le (a b : value) : bool :=
  negb (is_null a) && negb (is_null b) && value_leb a b.

Definition sql_between (v lo hi : value) : bool :=
  sql_le lo v && sql_le v hi.

(** ** The schema *)

Inductive table : Type :=
  | Scenes
  | Detections
  | Annotations
  | SceneDescriptions
  | Datasets.

#[global] Instance table_eq_dec : EqDecision table.
Proof. solve_decision. Defined.

(** Modelled from the spec: the schema script. [_create_tables] runs a
    script that the source leaves as a placeholder; the tables and
    their columns, in declaration order, are those of the specification's
    schema table. [scene_id], [detection_id], [annotation_id] and
    [description_id] are integer primary keys assigned by the store
    ([add_scene] returns [cursor.lastrowid] as the scene id), the
    [scene_id] column of the four other tables is a foreign key to
    [scenes] declared with ON DELETE CASCADE. No column type and no
    NOT NULL or CHECK constraint is declared, so a column stores the
    value it is given. *)
Definition columns (t : table) : list string :=
  match t with
  | Scenes =>
      ["scene_id"; "timestamp"; "latitude"; "longitude"; "resolution";
       "camera_id"; "media_path"]
  | Detections =>
      ["detection_id"; "scene_id"; "class_label"; "confidence";
       "x_min"; "y_min"; "x_max"; "y_max"]
  | Annotations =>
      ["annotation_id"; "scene_id"; "label_type"; "description";
       "class_label"; "x_min"; "y_min"; "x_max"; "y_max"; "annotated_by"]
  | SceneDescriptions =>
      ["description_id"; "scene_id"; "description"; "confidence";
       "model_version"]
  | Datasets => ["scene_id"; "dataset_type"]
  end%string.

(** The tables whose first column is the store-assigned primary key. *)
Definition has_rowid_key (t : table) : bool :=
  match t with
  | Datasets => false
  | _ => true
  end.

(** The position of the foreign key [scene_id] in the tables that
    reference [scenes]. *)
Definition scene_ref (t : table) : option nat :=
  match t with
  | Scenes => None
  | Datasets => Some 0%nat
  | _ => Some 1%nat
  end.

(** A stored table: its rows in insertion order and the largest key the
    store has handed out for it. *)
Record Table : Type := mkTable {
  t_rows : list row;
  t_seq : Z
}.

Record Database : Type := mkDatabase {
  db_scenes : Table;
  db_detections : Table;
  db_annotations : Table;
  db_scene_descriptions : Table;
  db_datasets : Table
}.

Definition get_table (db : Database) (t : table) : Table :=
  match t with
  | Scenes => db_scenes db
  | Detections => db_detections db
  | Annotations => db_annotations db
  | SceneDescriptions => db_scene_descriptions db
  | Datasets => db_datasets db
  end.

Definition set_table (t : table) (T : Table) (db : Database) : Database :=
  match t with
  | Scenes =>
      mkDatabase T (db_detections db) (db_annotations db)
        (db_scene_descriptions db) (db_datasets db)
  | Detections =>
      mkDatabase (db_scenes db) T (db_annotations db)
        (db_scene_descriptions db) (db_datasets db)
  | Annotations =>
      mkDatabase (db_scenes db) (db_detections db) T
        (db_scene_descriptions db) (db_datasets db)
  | SceneDescriptions =>
      mkDatabase (db_scenes db) (db_detections db) (db_annotations db)
        T (db_datasets db)
  | Datasets =>
      mkDatabase (db_scenes db) (db_detections db) (db_annotations db)
        (db_scene_descriptions db) T
  end.

Definition rows (db : Database) (t : table) : list row :=
  t_rows (get_table db t).

Definition set_rows (t : table) (l : list row) (db : Database) : Database :=
  set_table t (mkTable l (t_seq (get_table db t))) db.

Definition empty_table : Table := mkTable [] 0.

(** The database of a file that did not exist: the five tables, empty. *)
Definition empty_database : Database :=
  mkDatabase empty_table empty_table empty_table empty_table empty_table.

(** ** The connection *)

(** One [sqlite3.Connection]: the committed database, the database as
    the open transaction has changed it (if a transaction is open), and
    whether the engine enforces the foreign keys of the schema. *)
Record Conn : Type := mkConn {
  committed : Database;
  pending : option Database;
  foreign_keys : bool
}.

(** What a statement run on the connection reads. *)
Definition view (c : Conn) : Database :=
  default (committed c) (pending c).

(** A write opens the transaction if none is open and changes its
    database. *)
Definition write (db : Database) (c : Conn) : Conn :=
  mkConn (committed c) (Some db) (foreign_keys c).

Definition commit (c : Conn) : Conn :=
  mkConn (view c) None (foreign_keys c).

Definition rollback (c : Conn) : Conn :=
  mkConn (committed c) None (foreign_keys c).

(** [sqlite3.connect(db_path)]: SQLite leaves foreign-key enforcement
    off on a new connection until [PRAGMA foreign_keys = ON] is run on
    it. *)
Definition connect (file : Database) : Conn :=
  mkConn file None false.

(** ** Exceptions and the monad of the methods *)

(** The Python exceptions that the methods let through, the sqlite3
    errors with a summary of their message. [Unsupported] is none of
    Python's: the embedding answers with it where it does not follow
    what the engine makes of a statement (see [set_list] and
    [as_rowid]). *)
Inductive exn : Type :=
  | KeyError (key : string)
  | IndexError
  | OperationalError (msg : string)
  | IntegrityError (msg : string)
  | Unsupported.

Inductive outcome (A : Type) : Type :=
  | Return (a : A)
  | Raise (e : exn).

Arguments Return {A} a.
Arguments Raise {A} e.

#[global] Instance outcome_ret : MRet outcome := λ A a, Return a.

#[global] Instance outcome_bind : MBind outcome := λ A B f m,
  match m with
  | Return a => f a
  | Raise e => Raise e
  end.

#[global] Instance outcome_fmap : FMap outcome := λ A B f m,
  match m with
  | Return a => Return (f a)
  | Raise e => Raise e
  end.

(** A method runs on the connection and either returns or raises; the
    connection it leaves behind is kept in both cases. *)
Definition Py (A : Type) : Type := Conn → outcome A * Conn.

#[global] Instance Py_ret : MRet Py := λ A a c, (Return a, c).

#[global] Instance Py_bind : MBind Py := λ A B f m c,
  match m c with
  | (Return a, c') => f a c'
  | (Raise e, c') => (Raise e, c')
  end.

(** A computation that does not touch the connection. *)
Definition pure {A : Type} (o : outcome A) : Py A := λ c, (o, c).

(** [for x in l: body(x)] *)
Fixpoint for_each {A : Type} (l : list A) (body : A → Py ()) : Py () :=
  match l with
  | [] => mret ()
  | x :: l' => body x ≫= λ _, for_each l' body
  end.

(** [[f(x) for x in l]] *)
Fixpoint comprehension {A B : Type} (f : A → outcome B) (l : list A)
    : outcome (list B) :=
  match l with
  | [] => Return []
  | x :: l' => y ← f x; ys ← comprehension f l'; Return (y :: ys)
  end.

(** [with self.conn: body]: the connection's context manager commits
    when the body ends and rolls back when it raises, then lets the
    exception through. It keeps no count of enclosing blocks. *)
Definition with_conn {A : Type} (body : Py A) : Py A := λ c,
  match body c with
  | (Return a, c') => (Return a, commit c')
  | (Raise e, c') => (Raise e, rollback c')
  end.

(** ** Dictionaries *)

(** [d[k]] *)
Definition getitem (d : gmap string value) (k : string) : outcome value :=
  match d !! k with
  | Some v => Return v
  | None => Raise (KeyError k)
  end.

(** [d.get(k)] *)
Definition get (d : gmap string value) (k : string) : value :=
  default VNull (d !! k).

(** [d[k]] for a key whose presence is recorded by an [option]. *)
Definition subscript {A : Type} (k : string) (field : option A) : outcome A :=
  match field with
  | Some v => Return v
  | None => Raise (KeyError k)
  end.

(** [l[i]] for [0 <= i]. *)
Definition index (l : list value) (i : nat) : outcome value :=
  match l !! i with
  | Some v => Return v
  | None => Raise IndexError
  end.

(** ** Statements *)

(** [WHERE <key> = ?] with the key in the first column. *)
Definition key_is (k : Z) (r : row) : bool :=
  match r with
  | v :: _ => sql_eq v (VInt k)
  | [] => false
  end.

(** [WHERE scene_id = ?] on a table that references [scenes]. *)
Definition refers (j : nat) (k : Z) (r : row) : bool :=
  match r !! j with
  | Some v => sql_eq v (VInt k)
  | None => false
  end.

Definition max_key (l : list row) : Z :=
  foldr (λ r m, match r with VInt z :: _ => Z.max z m | _ => m end) 0 l.

(** The key of the next row: one more than every key in the table and
    every key handed out before. *)
Definition next_key (T : Table) : Z :=
  1 + Z.max (t_seq T) (max_key (t_rows T)).

(** The stored row and the [lastrowid] of an INSERT of [vals] into the
    columns that follow the key. *)
Definition new_row (t : table) (vals : list value) (T : Table) : Z * row :=
  if has_rowid_key t then (next_key T, VInt (next_key T) :: vals)
  else (t_seq T + 1, vals).

(** A foreign key is satisfied by NULL and by the key of a scene. *)
Definition parent_exists (db : Database) (v : value) : bool :=
  is_null v ||
  existsb (λ r, match r with k :: _ => sql_eq k v | [] => false end)
    (rows db Scenes).

Definition orphan (db : Database) (t : table) (r : row) : bool :=
  match scene_ref t with
  | Some j =>
      match r !! j with
      | Some v => negb (parent_exists db v)
      | None => false
      end
  | None => false
  end.

(** [INSERT INTO t (...) VALUES (?, ..., ?)], one execution. *)
Definition insert (t : table) (vals : list value) : Py Z := λ c,
  let db := view c in
  let T := get_table db t in
  let '(k, r) := new_row t vals T in
  if foreign_keys c && orphan db t r
  then (Raise (IntegrityError "FOREIGN KEY constraint failed"), write db c)
  else (Return k, write (set_table t (mkTable (t_rows T ++ [r]) k) db) c).

(** [executemany]: the statement once per parameter tuple, stopping at
    the first that fails. *)
Definition executemany (t : table) (values : list (list value)) : Py () :=
  for_each values (λ vals, insert t vals ≫= λ _, mret ()).

(** [SET k1 = ?, ..., kn = ?] applied to one row. *)
Definition assign (cols : list string) (U : gmap string value) (r : row) : row :=
  imap (λ j old,
          match cols !! j with
          | Some col => default old (U !! col)
          | None => old
          end) r.

Definition child_tables : list table :=
  [Detections; Annotations; SceneDescriptions; Datasets].

Definition has_children (db : Database) (k : Z) : bool :=
  existsb (λ t,
             match scene_ref t with
             | Some j => existsb (refers j k) (rows db t)
             | None => false
             end) child_tables.

(** Why the engine rejects an UPDATE that is well formed and reaches at
    least one row. The key of a row stays an integer and stays unique;
    when foreign keys are enforced a scene that is referenced keeps its
    key and a reference is moved only to an existing scene. (The new
    key comes here as the integer that [with_rowid] has read out of the
    value given.) *)
Definition key_rejected (c : Conn) (t : table) (U : gmap string value)
    (key : Z) : option exn :=
  let key_change :=
    if has_rowid_key t
    then match columns t with
         | col :: _ => U !! col
         | [] => None
         end
    else None in
  match key_change with
  | Some (VInt j) =>
      if negb (j =? key) && existsb (key_is j) (rows (view c) t)
      then Some (IntegrityError "UNIQUE constraint failed")
      else if foreign_keys c && negb (j =? key) &&
              bool_decide (t = Scenes) && has_children (view c) key
      then Some (IntegrityError "FOREIGN KEY constraint failed")
      else None
  | Some _ => Some (IntegrityError "datatype mismatch")
  | None => None
  end.

Definition reference_rejected (c : Conn) (t : table) (U : gmap string value)
    : option exn :=
  match scene_ref t, U !! "scene_id"%string with
  | Some _, Some v =>
      if foreign_keys c && negb (parent_exists (view c) v)
      then Some (IntegrityError "FOREIGN KEY constraint failed")
      else None
  | _, _ => None
  end.

Definition update_rejected (c : Conn) (t : table) (U : gmap string value)
    (key : Z) : option exn :=
  match key_rejected c t U key with
  | Some e => Some e
  | None => reference_rejected c t U
  end.

(** *** The SET clause of an UPDATE *)

(** SQLite matches a name with a column after folding the ASCII letters
    of both. *)
Definition lower_ascii (a : Ascii.ascii) : Ascii.ascii :=
  let n := Ascii.N_of_ascii a in
  if ((65 <=? n) && (n <=? 90))%N then Ascii.ascii_of_N (n + 32) else a.

Fixpoint lower (s : string) : string :=
  match s with
  | EmptyString => EmptyString
  | String a s' => String (lower_ascii a) (lower s')
  end.

(** A key made of ASCII letters, digits and underscores only. Pasted
    into [f"{k} = ?"] such a key is one token of the statement: a name,
    or a text that no statement has in that place. Any other key (with
    a quote, a bracket, a blank, an operator...) can make a different
    statement altogether. *)
Definition word_char (a : Ascii.ascii) : bool :=
  let n := Ascii.N_of_ascii a in
  ((48 <=? n) && (n <=? 57) || (65 <=? n) && (n <=? 90) ||
   (97 <=? n) && (n <=? 122) || (n =? 95))%N.

Fixpoint word (s : string) : bool :=
  match s with
  | EmptyString => true
  | String a s' => word_char a && word s'
  end.

(** The names under which SQLite knows the integer primary key of a
    table besides the name of the column. *)
Definition rowid_aliases : list string := ["rowid"; "oid"; "_rowid_"].

(** The column of [t] that the word [k] names: the column with that
    name in any letter case or, through an alias of the row id, the key
    column. *)
Definition names_column (t : table) (k : string) : option string :=
  match filter (λ col, lower col = lower k) (columns t) with
  | col :: _ => Some col
  | [] =>
      if has_rowid_key t && bool_decide (lower k ∈ rowid_aliases)
      then head (columns t)
      else None
  end.

(** The assignments of [SET k1 = ?, ..., kn = ?], each key replaced by
    the column it names. *)
Definition resolved (t : table) (U : gmap string value)
    : list (string * value) :=
  (λ kv, (default kv.1 (names_column t kv.1), kv.2)) <$> map_to_list U.

(** What preparing the statement makes of the keys of [U]: the value
    that each column is set to. With no key the text is
    [UPDATE t SET  WHERE ...], which does not parse; a word that names
    no column does not resolve (or does not parse, when it is a number
    or a reserved word: an [OperationalError] in each case). Two cases
    are left out: a key that is not a word, and two keys that name the
    same column, where the engine takes the one that comes last in the
    dictionary, an order that the map does not keep. *)
Definition set_list (t : table) (U : gmap string value)
    : outcome (gmap string value) :=
  if decide (U = ∅)
  then Raise (OperationalError "syntax error")
  else if negb (bool_decide (map_Forall (λ k _, word k = true) U))
  then Raise Unsupported
  else if negb (bool_decide (map_Forall (λ k _, is_Some (names_column t k)) U))
  then Raise (OperationalError "no such column")
  else if negb (bool_decide (NoDup (resolved t U).*1))
  then Raise Unsupported
  else Return (list_to_map (resolved t U)).

(** The blanks that SQLite skips around a number written as a text. *)
Definition is_space (a : Ascii.ascii) : bool :=
  let n := Ascii.N_of_ascii a in
  ((9 <=? n) && (n <=? 13) || (n =? 32))%N.

Fixpoint skip_spaces (l : list Ascii.ascii) : list Ascii.ascii :=
  match l with
  | a :: l' => if is_space a then skip_spaces l' else l
  | [] => []
  end.

Fixpoint decimal (l : list Ascii.ascii) (acc : Z) : option Z :=
  match l with
  | [] => Some acc
  | a :: l' =>
      let n := Ascii.N_of_ascii a in
      if ((48 <=? n) && (n <=? 57))%N
      then decimal l' (10 * acc + Z.of_N (n - 48))
      else None
  end.

(** The integer that a text spells: blanks, a sign, digits, blanks. *)
Definition integer_text (s : string) : option Z :=
  let l :=
    reverse (skip_spaces (reverse (skip_spaces (String.list_ascii_of_string s)))) in
  match l with
  | [] => None
  | a :: digits =>
      if (Ascii.N_of_ascii a =? 43)%N then
        match digits with [] => None | _ => decimal digits 0 end
      else if (Ascii.N_of_ascii a =? 45)%N then
        match digits with [] => None | _ => Z.opp <$> decimal digits 0 end
      else decimal l 0
  end.

(** A text with a point or an exponent mark, which may spell a float. *)
Definition float_like (s : string) : bool :=
  existsb (λ a, let n := Ascii.N_of_ascii a in
                ((n =? 46) || (n =? 101) || (n =? 69))%N)
    (String.list_ascii_of_string s).

(** The integer that SQLite stores when an integer primary key is set
    to [v]: an integer as it is, a float that is a whole number and a
    text that spells an integer as that integer, within 64 bits; NULL
    and the other floats and texts are a datatype mismatch. (A text
    that spells a float is read through a double; what comes out is
    left to the engine.) *)
Definition as_rowid (v : value) : outcome Z :=
  match v with
  | VInt z => Return z
  | VReal q =>
      let q' := Qred q in
      if (Z.pos (Qden q') =? 1) &&
         (- 2 ^ 63 <? Qnum q') && (Qnum q' <? 2 ^ 63 - 1)
      then Return (Qnum q')
      else Raise (IntegrityError "datatype mismatch")
  | VText s =>
      match integer_text s with
      | Some z =>
          if (- 2 ^ 63 <=? z) && (z <? 2 ^ 63)
          then Return z
          else Raise (IntegrityError "datatype mismatch")
      | None =>
          if float_like s then Raise Unsupported
          else Raise (IntegrityError "datatype mismatch")
      end
  | VNull => Raise (IntegrityError "datatype mismatch")
  end.

(** The assignments with the new key, if one is set, as the integer
    that is stored. *)
Definition with_rowid (t : table) (U : gmap string value)
    : outcome (gmap string value) :=
  match head (columns t) with
  | Some col =>
      match U !! col with
      | Some v => z ← as_rowid v; Return (<[col := VInt z]> U)
      | None => Return U
      end
  | None => Return U
  end.

(** [UPDATE t SET k1 = ?, ..., kn = ? WHERE <key> = ?] for the keys of
    [U], on a table with an integer primary key. An error of the
    statement's text is raised before anything runs; the new key is
    read, and the constraints are checked, only when a row has the key.
    (The rows of a table stay in the order of their insertion; SQLite
    scans a table in the order of the keys, which is the same order
    until an update moves a key.) *)
Definition update (t : table) (U : gmap string value) (key : Z) : Py () := λ c,
  match set_list t U with
  | Raise e => (Raise e, c)
  | Return sets =>
      let db := view c in
      if existsb (key_is key) (rows db t)
      then match with_rowid t sets with
           | Raise e => (Raise e, write db c)
           | Return sets' =>
               match update_rejected c t sets' key with
               | Some e => (Raise e, write db c)
               | None =>
                   (Return (),
                    write (set_rows t
                             ((λ r, if key_is key r
                                    then assign (columns t) sets' r else r)
                                <$> rows db t) db) c)
               end
           end
      else (Return (), write db c)
  end.

(** ON DELETE CASCADE: the rows that reference a deleted scene go with
    it. *)
Definition cascade (k : Z) (db : Database) : Database :=
  foldr (λ t db',
           match scene_ref t with
           | Some j =>
               set_rows t (filter (λ r, negb (refers j k r)) (rows db' t)) db'
           | None => db'
           end) db child_tables.

(** [DELETE FROM t WHERE <key> = ?] *)
Definition delete (t : table) (key : Z) : Py () := λ c,
  let db := view c in
  let db1 := set_rows t (filter (λ r, negb (key_is key r)) (rows db t)) db in
  let db2 :=
    if foreign_keys c && bool_decide (t = Scenes) &&
       existsb (key_is key) (rows db t)
    then cascade key db1 else db1 in
  (Return (), write db2 c).

(** [SELECT * FROM t WHERE ...]: the rows in table order. *)
Definition select (t : table) (cond : row → bool) : Py (list row) := λ c,
  (Return (filter (λ r, cond r) (rows (view c) t)), c).

(** ** What the methods take and return *)

(** A row as Python code receives it: the tuple that [fetchone] and
    [fetchall] produce, or the dictionary built from it. A dictionary
    keeps its keys in the order in which they were first set. *)
Inductive pyrow : Type :=
  | Tuple (vs : row)
  | Dict (items : list (string * value)).

(** [d[k] = v] on such a dictionary. *)
Fixpoint dict_set (k : string) (v : value) (d : list (string * value))
    : list (string * value) :=
  match d with
  | [] => [(k, v)]
  | (k', v') :: d' =>
      if String.eqb k k' then (k, v) :: d' else (k', v') :: dict_set k v d'
  end.

(** An entry of [cursor.description]: the column name, followed by six
    items that sqlite3 leaves at [None]. *)
Definition description_entry : Type := string * list value.

(** [cursor.description] after [SELECT * FROM t]. *)
Definition cursor_description (t : table) : list description_entry :=
  map (λ name, (name, replicate 6 VNull)) (columns t).

(** A detection as [add_detections] reads it: the keys ['class'],
    ['confidence'] and ['bbox'], each present or not, the last one a
    list. *)
Record detection : Type := mkDetection {
  det_class : option value;
  det_confidence : option value;
  det_bbox : option (list value)
}.

(** A record of the batch given to [incremental_update]. *)
Record scene_record : Type := mkSceneRecord {
  rec_metadata : option (gmap string value);
  rec_detections : option (list detection);
  rec_description : option value;
  rec_confidence : option value;
  rec_model_version : option value
}.

(** [datetime] is Python's; of it the store uses [isoformat] only. *)
Class Datetime (T : Type) : Type := isoformat : T → string.

(** ** The class [SceneDatabase] *)

(** [executescript] commits what is pending before it runs the script,
    and the script creates the tables that do not exist yet. *)
Definition _create_tables : Py () :=
  with_conn (λ c, (Return (), commit c)).

(** The connection [SceneDatabase(db_path)] holds, for the database
    that the five tables of the file make up. *)
Definition __init__ (file : Database) : Conn :=
  (_create_tables (connect file)).2.

Definition add_scene (metadata : gmap string value) : Py Z :=
  values ← pure (
    timestamp ← getitem metadata "timestamp";
    camera_id ← getitem metadata "camera_id";
    media_path ← getitem metadata "media_path";
    Return [timestamp;
            get metadata "latitude";
            get metadata "longitude";
            get metadata "resolution";
            camera_id;
            media_path]);
  insert Scenes values.

Definition detection_values (scene_id : Z) (d : detection)
    : outcome (list value) :=
  class ← subscript "class" (det_class d);
  confidence ← subscript "confidence" (det_confidence d);
  bbox ← subscript "bbox" (det_bbox d);
  x_min ← index bbox 0;
  y_min ← index bbox 1;
  x_max ← index bbox 2;
  y_max ← index bbox 3;
  Return [VInt scene_id; class; confidence; x_min; y_min; x_max; y_max].

Definition add_detections (scene_id : Z) (detections : list detection)
    : Py () :=
  values ← pure (comprehension (detection_values scene_id) detections);
  with_conn (executemany Detections values).

Definition add_annotation (scene_id : Z) (annotation : gmap string value)
    : Py () :=
  values ← pure (
    label_type ← getitem annotation "label_type";
    Return [VInt scene_id;
            label_type;
            get annotation "description";
            get annotation "class_label";
            get annotation "x_min";
            get annotation "y_min";
            get annotation "x_max";
            get annotation "y_max";
            get annotation "annotated_by"]);
  with_conn (insert Annotations values ≫= λ _, mret ()).

Definition column (j : nat) (r : row) : value :=
  default VNull (r !! j).

Definition fetchall (l : list row) : list pyrow :=
  Tuple <$> l.

Definition fetchone (l : list row) : option row :=
  head l.

Definition get_scenes_by_time_range `{Datetime T} (start end_ : T)
    : Py (list pyrow) :=
  found ← select Scenes
    (λ r, sql_between (column 1 r)
            (VText (isoformat start)) (VText (isoformat end_)));
  mret (fetchall found).

(** ([confidence_threshold] is 0.5 when the caller gives none.) *)
Definition get_detections_by_class (class_label : string)
    (confidence_threshold : Q) : Py (list pyrow) :=
  found ← select Detections
    (λ r, sql_eq (column 2 r) (VText class_label) &&
          sql_le (VReal confidence_threshold) (column 3 r));
  mret (fetchall found).

Definition assign_to_dataset (scene_ids : list Z) (dataset_type : string)
    : Py () :=
  let values := map (λ sid, [VInt sid; VText dataset_type]) scene_ids in
  with_conn (executemany Datasets values).

(** The rows of
    [scenes s JOIN datasets ds ON s.scene_id = ds.scene_id
     LEFT JOIN scene_descriptions d ON s.scene_id = d.scene_id
     WHERE ds.dataset_type = 'train'], each [s.*] followed by
    [d.description]. *)
Definition described (db : Database) (s : row) : list row :=
  let ds :=
    filter (λ d, sql_eq (column 0 s) (column 1 d))
      (rows db SceneDescriptions) in
  match ds with
  | [] => [s ++ [VNull]]
  | _ => map (λ d, s ++ [column 2 d]) ds
  end.

Definition training_rows (db : Database) : list row :=
  s ← rows db Scenes;
  ds ← filter (λ ds, sql_eq (column 0 s) (column 0 ds) &&
                     sql_eq (column 1 ds) (VText "train"))
         (rows db Datasets);
  described db s.

Definition get_training_data : Py (list pyrow) := λ c,
  (Return (fetchall (training_rows (view c))), c).

Definition add_scene_description (scene_id : Z)
    (description confidence model_version : value) : Py () :=
  with_conn
    (insert SceneDescriptions
       [VInt scene_id; description; confidence; model_version]
     ≫= λ _, mret ()).

(** The body of the loop of [incremental_update]. *)
Definition incremental_update_body (scene : scene_record) : Py () :=
  metadata ← pure (subscript "metadata" (rec_metadata scene));
  scene_id ← add_scene metadata;
  _ ← match rec_detections scene with
      | Some detections => add_detections scene_id detections
      | None => mret ()
      end;
  match rec_description scene with
  | Some description =>
      confidence ← pure (subscript "confidence" (rec_confidence scene));
      model_version ←
        pure (subscript "model_version" (rec_model_version scene));
      add_scene_description scene_id description confidence model_version
  | None => mret ()
  end.

Definition incremental_update (new_scenes : list scene_record) : Py () :=
  with_conn (for_each new_scenes incremental_update_body).

(** [self.conn.close()] does not commit: what is pending is lost with
    the connection, which is not used again. *)
Definition close : Py () := λ c, (Return (), rollback c).

(** *** Scenes *)

Definition create_scene (metadata : gmap string value) : Py Z :=
  add_scene metadata.

Fixpoint row_items (i : nat) (row : row) (description : list description_entry)
    (d : list (string * value)) : outcome (list (string * value)) :=
  match row with
  | [] => Return d
  | value :: rest =>
      match description !! i with
      | Some entry => row_items (S i) rest description (dict_set entry.1 value d)
      | None => Raise IndexError
      end
  end.

(** [{description[i][0]: value for i, value in enumerate(row)}] *)
Definition _row_to_dict (row : row) (description : list description_entry)
    : outcome pyrow :=
  Dict <$> row_items 0 row description [].

Definition get_scene (scene_id : Z) : Py (option pyrow) :=
  cursor ← select Scenes (key_is scene_id);
  match fetchone cursor with
  | Some row =>
      d ← pure (_row_to_dict row (cursor_description Scenes)); mret (Some d)
  | None => mret None
  end.

Definition update_scene (scene_id : Z) (updates : gmap string value) : Py () :=
  with_conn (update Scenes updates scene_id).

Definition delete_scene (scene_id : Z) : Py () :=
  with_conn (delete Scenes scene_id).

(** *** Detections *)

Definition get_detection (detection_id : Z) : Py (option pyrow) :=
  cursor ← select Detections (key_is detection_id);
  match fetchone cursor with
  | Some row =>
      d ← pure (_row_to_dict row (cursor_description Detections));
      mret (Some d)
  | None => mret None
  end.

Definition update_detection (detection_id : Z) (updates : gmap string value)
    : Py () :=
  with_conn (update Detections updates detection_id).

Definition delete_detection (detection_id : Z) : Py () :=
  with_conn (delete Detections detection_id).

(** *** Annotations *)

Definition get_annotation (annotation_id : Z) : Py (option pyrow) :=
  cursor ← select Annotations (key_is annotation_id);
  match fetchone cursor with
  | Some row =>
      d ← pure (_row_to_dict row (cursor_description Annotations));
      mret (Some d)
  | None => mret None
  end.

Definition update_annotation (annotation_id : Z) (updates : gmap string value)
    : Py () :=
  with_conn (update Annotations updates annotation_id).

Definition delete_annotation (annotation_id : Z) : Py () :=
  with_conn (delete Annotations annotation_id).

(** *** Queries *)

(** [ORDER BY timestamp DESC]: no row comes before a row with a greater
    timestamp. (SQL leaves the order of rows with equal timestamps
    open.) *)
Definition newer_first (r1 r2 : row) : Prop :=
  value_leb (column 1 r2) (column 1 r1).

(** [LIMIT ?]: a negative limit is no limit. *)
Definition sql_limit (n : Z) (l : list row) : list row :=
  if n <? 0 then l else take (Z.to_nat n) l.

(** [[f(row) for row in rows]] in the monad of the methods. *)
Definition rows_to_dicts (l : list row) (description : list description_entry)
    : Py (list pyrow) :=
  pure (comprehension (λ row, _row_to_dict row description) l).

(** ([limit] is 100 when the caller gives none. It is bound like every
    integer: one of 64 bits is taken, any other is refused by Python
    with [OverflowError] before the statement runs, and is left out
    here.) *)
Definition get_all_scenes (limit : Z) : Py (list pyrow) := λ c,
  rows_to_dicts
    (sql_limit limit (merge_sort newer_first (rows (view c) Scenes)))
    (cursor_description Scenes) c.

Definition get_scene_detections (scene_id : Z) : Py (list pyrow) :=
  cursor ← select Detections (refers 1 scene_id);
  rows_to_dicts cursor (cursor_description Detections).

(** * The vocabulary of the properties *)

(** ** The schema invariant *)

(** A row of [t] has one value per column, and its key, where the table
    has one, is an integer. *)
Definition row_ok (t : table) (r : row) : bool :=
  (length r =? length (columns t))%nat &&
  (negb (has_rowid_key t) ||
   match r with
   | VInt _ :: _ => true
   | _ => false
   end).

Definition row_key (r : row) : Z :=
  match r with
  | VInt z :: _ => z
  | _ => 0
  end.

(** The rows of a table are rows of it, and no two share a key. *)
Definition table_ok (t : table) (l : list row) : bool :=
  forallb (row_ok t) l &&
  (negb (has_rowid_key t) || bool_decide (NoDup (row_key <$> l))).

Definition tables : list table :=
  [Scenes; Detections; Annotations; SceneDescriptions; Datasets].

Definition well_formed (db : Database) : bool :=
  forallb (λ t, table_ok t (rows db t)) tables.

(** The committed database and the database of the open transaction
    both satisfy the schema. *)
Definition conn_ok (c : Conn) : Prop :=
  well_formed (committed c) = true ∧ well_formed (view c) = true.

(** A method that takes such a connection to such a connection, whether
    it returns or raises. *)
Definition keeps_schema {A : Type} (m : Py A) : Prop :=
  ∀ c, conn_ok c → conn_ok (m c).2.

(** A call of a method that writes, and the connection it leaves. *)
Inductive call : Type :=
  | CreateScene (metadata : gmap string value)
  | AddDetections (scene_id : Z) (detections : list detection)
  | AddAnnotation (scene_id : Z) (annotation : gmap string value)
  | AssignToDataset (scene_ids : list Z) (dataset_type : string)
  | AddSceneDescription (scene_id : Z)
      (description confidence model_version : value)
  | IncrementalUpdate (new_scenes : list scene_record)
  | UpdateScene (scene_id : Z) (updates : gmap string value)
  | UpdateDetection (detection_id : Z) (updates : gmap string value)
  | UpdateAnnotation (annotation_id : Z) (updates : gmap string value)
  | DeleteScene (scene_id : Z)
  | DeleteDetection (detection_id : Z)
  | DeleteAnnotation (annotation_id : Z).

Definition run (k : call) (c : Conn) : Conn :=
  match k with
  | CreateScene metadata => (create_scene metadata c).2
  | AddDetections scene_id detections =>
      (add_detections scene_id detections c).2
  | AddAnnotation scene_id annotation =>
      (add_annotation scene_id annotation c).2
  | AssignToDataset scene_ids dataset_type =>
      (assign_to_dataset scene_ids dataset_type c).2
  | AddSceneDescription scene_id description confidence model_version =>
      (add_scene_description scene_id description confidence model_version
         c).2
  | IncrementalUpdate new_scenes => (incremental_update new_scenes c).2
  | UpdateScene scene_id updates => (update_scene scene_id updates c).2
  | UpdateDetection detection_id updates =>
      (update_detection detection_id updates c).2
  | UpdateAnnotation annotation_id updates =>
      (update_annotation annotation_id updates c).2
  | DeleteScene scene_id => (delete_scene scene_id c).2
  | DeleteDetection detection_id => (delete_detection detection_id c).2
  | DeleteAnnotation annotation_id => (delete_annotation annotation_id c).2
  end.

(** The connections that a store opened on [file] goes through. *)
Inductive reachable (file : Database) : Conn → Prop :=
  | reachable_init : reachable file (__init__ file)
  | reachable_call (c : Conn) (k : call) :
      reachable file c → reachable file (run k c).

(** No row references a scene that is not there. *)
Definition referential_integrity (db : Database) : Prop :=
  ∀ t j r k, scene_ref t = Some j → r ∈ rows db t →
    refers j k r = true → existsb (key_is k) (rows db Scenes) = true.

(** ** Rows, batches and updates *)

(** The shape that [get_scene], [get_detection] and [get_annotation]
    share: the first row with the key, as a dictionary, or [None]. *)
Definition read_one (t : table) (key : Z) : Py (option pyrow) :=
  cursor ← select t (key_is key);
  match fetchone cursor with
  | Some row => d ← pure (_row_to_dict row (cursor_description t)); mret (Some d)
  | None => mret None
  end.

(** The dictionary of a row of [t]: its values under the column names,
    in the order in which the schema declares the columns. *)
Definition mapping_of (t : table) (r : row) : pyrow :=
  Dict (zip (columns t) r).

Definition is_mapping (p : pyrow) : Prop := ∃ items, p = Dict items.

(** A record with a ['description'] key that lacks ['confidence'] or
    ['model_version']. *)
Definition lacks_triple (r : scene_record) : Prop :=
  is_Some (rec_description r) ∧
  (rec_confidence r = None ∨ rec_model_version r = None).

(** The 'train' assignments of the scene with key [i], and its
    descriptions. *)
Definition train_assignments (db : Database) (i : Z) : list row :=
  filter (λ a, sql_eq (VInt i) (column 0 a) &&
               sql_eq (column 1 a) (VText "train"))
    (rows db Datasets).

Definition descriptions_of (db : Database) (i : Z) : list row :=
  filter (λ d, sql_eq (VInt i) (column 1 d)) (rows db SceneDescriptions).

(** The rows that the join makes for the scene [s]. *)
Definition joined (db : Database) (s : row) : list row :=
  ds ← filter (λ ds, sql_eq (column 0 s) (column 0 ds) &&
                     sql_eq (column 1 ds) (VText "train"))
         (rows db Datasets);
  described db s.

(** The mapping leaves the key of scene [i] alone, or moves it to an
    integer that no scene has, which the engine accepts when it does
    not enforce foreign keys or nothing references the scene. *)
Definition key_assignment_ok (c : Conn) (i : Z) (U : gmap string value)
    : Prop :=
  match U !! "scene_id"%string with
  | None => True
  | Some v =>
      v = VInt i ∨
      ∃ j, v = VInt j ∧
           (j ∉ row_key <$> rows (view c) Scenes) ∧
           (foreign_keys c = true → has_children (view c) i = false)
  end.

(** ** Well-formed inputs and the rows they make *)

(** The engine takes [v] as a reference to a scene: it does not check,
    or [v] is NULL or the key of a scene. *)
Definition reference_accepted (c : Conn) (v : value) : Prop :=
  foreign_keys c = false ∨ parent_exists (view c) v = true.

(** A detection with the three keys and a box of four items or more. *)
Definition detection_ok (d : detection) : bool :=
  match det_class d, det_confidence d, det_bbox d with
  | Some _, Some _, Some bbox => (4 <=? length bbox)%nat
  | _, _, _ => false
  end.

(** What [add_detections] may raise while it reads the detections. *)
Definition marshalling_errors : list exn :=
  [KeyError "class"; KeyError "confidence"; KeyError "bbox"; IndexError].

(** The values that [add_detections] binds for a detection. *)
Definition detection_fields (scene_id : Z) (d : detection) : list value :=
  [VInt scene_id;
   default VNull (det_class d);
   default VNull (det_confidence d);
   column 0 (default [] (det_bbox d));
   column 1 (default [] (det_bbox d));
   column 2 (default [] (det_bbox d));
   column 3 (default [] (det_bbox d))].

(** The values that [add_scene] binds for a metadata mapping. *)
Definition scene_fields (metadata : gmap string value) : list value :=
  [get metadata "timestamp";
   get metadata "latitude";
   get metadata "longitude";
   get metadata "resolution";
   get metadata "camera_id";
   get metadata "media_path"].

(** The values that [add_annotation] binds. *)
Definition annotation_fields (scene_id : Z) (annotation : gmap string value)
    : list value :=
  [VInt scene_id;
   get annotation "label_type";
   get annotation "description";
   get annotation "class_label";
   get annotation "x_min";
   get annotation "y_min";
   get annotation "x_max";
   get annotation "y_max";
   get annotation "annotated_by"].

(** The rows that consecutive inserts store for a list of value tuples,
    the first under the key [n]. *)
Definition keyed (n : Z) (values : list (list value)) : list row :=
  imap (λ k vals, VInt (n + Z.of_nat k) :: vals) values.

(** A metadata mapping with the three required keys. *)
Definition metadata_ok (metadata : gmap string value) : bool :=
  bool_decide (is_Some (metadata !! "timestamp"%string)) &&
  bool_decide (is_Some (metadata !! "camera_id"%string)) &&
  bool_decide (is_Some (metadata !! "media_path"%string)).

(** A batch record that [incremental_update] can process: metadata with
    the required keys, detections (if any) that are well formed, and a
    description (if any) that comes with its confidence and its model
    version. *)
Definition record_ok (r : scene_record) : bool :=
  match rec_metadata r with
  | Some metadata => metadata_ok metadata
  | None => false
  end &&
  match rec_detections r with
  | Some detections => forallb detection_ok detections
  | None => true
  end &&
  match rec_description r with
  | Some _ =>
      bool_decide (is_Some (rec_confidence r)) &&
      bool_decide (is_Some (rec_model_version r))
  | None => true
  end.

(** The confidence of a stored detection passes [confidence >= q]: it
    is a number that is [q] or more, or it is a text, which SQLite
    orders after every number. *)
Definition confidence_passes (q : Q) (v : value) : Prop :=
  match v with
  | VNull => False
  | VInt z => (q <= inject_Z z)%Q
  | VReal p => (q <= p)%Q
  | VText _ => True
  end.

(** An update of a row of [t] that the engine takes: the mapping is not
    empty, names columns of [t] only, leaves the key column alone and,
    if it sets [scene_id], sets it to a reference that is accepted. *)
Definition update_ok (c : Conn) (t : table) (U : gmap string value) : Prop :=
  U ≠ ∅ ∧
  (∀ k v, U !! k = Some v → k ∈ columns t) ∧
  (∀ col, head (columns t) = Some col → U !! col = None) ∧
  (∀ v, U !! "scene_id"%string = Some v → reference_accepted c v).

(** Between [db] and [db'] the row [r] at position [pos] of [t] has
    taken the values of [U] in the columns that [U] names, and nothing
    else has changed. *)
Definition row_updated (t : table) (U : gmap string value) (pos : nat)
    (r : row) (db db' : Database) : Prop :=
  ∃ r',
    rows db' t = <[pos := r']> (rows db t) ∧
    length r' = length r ∧
    (∀ j col, columns t !! j = Some col →
              r' !! j = Some (default (column j r) (U !! col))) ∧
    ∀ t', t' ≠ t → rows db' t' = rows db t'.

(** The word [k] names no column of [t]: it is the name of none in any
    letter case, and it is no alias of the row id. *)
Definition names_no_column (t : table) (k : string) : Prop :=
  (∀ col, col ∈ columns t → lower col ≠ lower k) ∧
  lower k ∉ rowid_aliases.

(** An integer that the binding takes as a parameter: one of 64 bits.
    (Python refuses any other with [OverflowError] before the statement
    runs.) *)
Definition int64 (z : Z) : Prop := - 2 ^ 63 ≤ z < 2 ^ 63.

(** What the join makes of the scenes: a scene with a 'train'
    assignment, followed by NULL when it has no description and by the
    text of one of its descriptions when it has some. *)
Definition training_tuple (db : Database) (r : row) : Prop :=
  ∃ s, s ∈ rows db Scenes ∧
       train_assignments db (row_key s) ≠ [] ∧
       (descriptions_of db (row_key s) = [] ∧ r = s ++ [VNull] ∨
        ∃ d, d ∈ descriptions_of db (row_key s) ∧ r = s ++ [column 2 d]).

(** A computation that leaves the enforcement of foreign keys on the
    connection as it finds it. *)
Definition keeps_enforcement {A : Type} (m : Py A) : Prop :=
  ∀ c, foreign_keys (m c).2 = foreign_keys c.

(** The timestamp [v] lies between the texts [lo] and [hi]: it is a
    text, and in the byte order of texts it is neither before [lo] nor
    after [hi]. *)
Definition text_between (lo hi : string) (v : value) : Prop :=
  ∃ ts, v = VText ts ∧ String.compare lo ts ≠ Gt ∧ String.compare ts hi ≠ Gt.

(** The rows that a batch record brings with it are in [db] under the
    scene id [scene_id]: its detections, in their order and under
    consecutive ids, and its description. *)
Definition record_rows_stored (db : Database) (scene_id : Z)
    (r : scene_record) : Prop :=
  (∀ detections, rec_detections r = Some detections →
     ∃ n, keyed n (detection_fields scene_id <$> detections)
          `sublist_of` rows db Detections) ∧
  (∀ description, rec_description r = Some description →
     ∃ k, [VInt k; VInt scene_id; description;
           default VNull (rec_confidence r);
           default VNull (rec_model_version r)]
          ∈ rows db SceneDescriptions).

(** ** Sample data *)

Definition scene_at (timestamp media_path : string) : gmap string value :=
  {[ "timestamp" := VText timestamp;
     "camera_id" := VText "cam-1";
     "media_path" := VText media_path ]}%string.

Definition car : detection :=
  mkDetection (Some (VText "car")) (Some (VReal (9 # 10)))
    (Some [VInt 0; VInt 0; VInt 10; VInt 10]).

(** A detection without the ['confidence'] key. *)
Definition car_without_confidence : detection :=
  mkDetection (Some (VText "car")) None
    (Some [VInt 0; VInt 0; VInt 10; VInt 10]).

Definition first_record : scene_record :=
  mkSceneRecord (Some (scene_at "2024-01-01T10:00:00" "/media/1.jpg"))
    (Some [car]) None None None.

Definition malformed_record : scene_record :=
  mkSceneRecord (Some (scene_at "2024-01-02T10:00:00" "/media/2.jpg"))
    (Some [car_without_confidence]) None None None.

Definition described_record : scene_record :=
  mkSceneRecord (Some (scene_at "2024-01-02T10:00:00" "/media/2.jpg"))
    None (Some (VText "a street")) (Some (VReal (8 # 10))) (Some (VText "v1")).

(** The store on a new file. *)
Definition new_store : Conn := __init__ empty_database.

(** The store after a batch of one scene with one detection. *)
Definition one_scene_store : Conn :=
  (incremental_update [first_record] new_store).2.

(** The store after a batch of two scenes, the first with a detection
    and the second with a description. *)
Definition two_scene_store : Conn :=
  (incremental_update [first_record; described_record] new_store).2.

(** The same store with the second scene assigned to 'train'. *)
Definition training_store : Conn :=
  (assign_to_dataset [2] "train" two_scene_store).2.

(** The two-scene store with the second scene assigned to 'train'
    twice. *)
Definition twice_assigned_store : Conn :=
  (assign_to_dataset [2; 2] "train" two_scene_store).2.

(** A datetime given by its ISO text. *)
Definition iso_text : Datetime string := λ s, s.

(** Metadata with a latitude. *)
Definition located_scene : gmap string value :=
  <[ "latitude"%string := VReal (25 # 2) ]>
    (scene_at "2024-01-03T10:00:00" "/media/3.jpg").

(** [{"latitude": 12.5}] *)
Definition latitude_update : gmap string value :=
  {[ "latitude"%string := VReal (25 # 2) ]}.

(** [{"scene_id": 2}] *)
Definition key_update : gmap string value :=
  {[ "scene_id"%string := VInt 2 ]}.

(** A record with a description and a model version, without
    ['confidence']. *)
Definition record_without_confidence : scene_record :=
  mkSceneRecord (Some (scene_at "2024-01-02T10:00:00" "/media/2.jpg"))
    None (Some (VText "a street")) None (Some (VText "v1")).

(** Metadata without ['camera_id']. *)
Definition scene_without_camera : gmap string value :=
  {[ "timestamp" := VText "2024-01-04T10:00:00";
     "media_path" := VText "/media/4.jpg" ]}%string.

(** The second scene of the two-scene store, as it is stored. *)
Definition second_scene : row :=
  [VInt 2; VText "2024-01-02T10:00:00"; VNull; VNull; VNull;
   VText "cam-1"; VText "/media/2.jpg"].

(** The detection of the one-scene store, as it is stored. *)
Definition stored_car : row :=
  [VInt 1; VInt 1; VText "car"; VReal (9 # 10);
   VInt 0; VInt 0; VInt 10; VInt 10].

(** [{"label_type": "classification", "class_label": "car"}] *)
Definition car_annotation : gmap string value :=
  {[ "label_type" := VText "classification";
     "class_label" := VText "car" ]}%string.

(** [{"confidence": 0.5}] *)
Definition confidence_update : gmap string value :=
  {[ "confidence"%string := VReal (1 # 2) ]}.

(** [{"colour": "red"}] *)
Definition colour_update : gmap string value :=
  {[ "colour"%string := VText "red" ]}.

(** * Properties *)

(** ** Values *)

Lemma value_compare_int (a b : Z) :
  value_compare (VInt a) (VInt b) = (a ?= b).
Proof.
  unfold value_compare, numeric, Qcompare, inject_Z. simpl.
  by rewrite !Z.mul_1_r.
Qed.

Lemma sql_eq_int (a b : Z) : sql_eq (VInt a) (VInt b) = (a =? b).
Proof.
  unfold sql_eq. rewrite value_compare_int. simpl.
  destruct (Z.compare_spec a b) as [->| |]; symmetry;
    [apply Z.eqb_refl | apply Z.eqb_neq; lia ..].
Qed.

Lemma key_is_int (k z : Z) (r : row) : key_is k (VInt z :: r) = (z =? k).
Proof. apply sql_eq_int. Qed.

(** ** Tables of a database *)

Lemma get_set_table (t t' : table) (T : Table) (db : Database) :
  get_table (set_table t T db) t' = if decide (t = t') then T else get_table db t'.
Proof. by destruct t, t'. Qed.

Lemma rows_set_table (t t' : table) (T : Table) (db : Database) :
  rows (set_table t T db) t' = if decide (t = t') then t_rows T else rows db t'.
Proof. unfold rows. rewrite get_set_table. by case_decide. Qed.

Lemma rows_set_rows (t t' : table) (l : list row) (db : Database) :
  rows (set_rows t l db) t' = if decide (t = t') then l else rows db t'.
Proof. unfold set_rows. by rewrite rows_set_table. Qed.

Lemma view_write (db : Database) (c : Conn) : view (write db c) = db.
Proof. done. Qed.

Lemma view_commit (c : Conn) : view (commit c) = view c.
Proof. done. Qed.

Lemma view_rollback (c : Conn) : view (rollback c) = committed c.
Proof. done. Qed.

(** ** The invariant of the schema *)

Lemma well_formed_table (db : Database) (t : table) :
  well_formed db = true → table_ok t (rows db t) = true.
Proof.
  unfold well_formed. rewrite forallb_forall. intros Hall. apply Hall.
  destruct t; simpl; tauto.
Qed.

Lemma table_ok_row (t : table) (l : list row) (r : row) :
  table_ok t l = true → r ∈ l → row_ok t r = true.
Proof.
  unfold table_ok. rewrite andb_true_iff, forallb_forall.
  intros [Hall _] Hin. apply Hall. by apply list_elem_of_In.
Qed.

Lemma row_ok_length (t : table) (r : row) :
  row_ok t r = true → length r = length (columns t).
Proof.
  unfold row_ok. rewrite andb_true_iff. intros [Hlen _].
  by apply Nat.eqb_eq.
Qed.

Lemma row_ok_key (t : table) (r : row) :
  has_rowid_key t = true → row_ok t r = true →
  ∃ rest, r = VInt (row_key r) :: rest.
Proof.
  unfold row_ok. intros ->. rewrite andb_true_iff. simpl. intros [_ Hkey].
  destruct r as [|[] rest]; try done. by exists rest.
Qed.

Lemma table_ok_keys (t : table) (l : list row) :
  has_rowid_key t = true → table_ok t l = true → NoDup (row_key <$> l).
Proof.
  unfold table_ok. intros ->. rewrite andb_true_iff. simpl.
  intros [_ Hnd]. by apply bool_decide_eq_true in Hnd.
Qed.

Lemma key_is_row_key (t : table) (k : Z) (r : row) :
  has_rowid_key t = true → row_ok t r = true →
  key_is k r = true ↔ row_key r = k.
Proof.
  intros Ht Hr. destruct (row_ok_key t r Ht Hr) as [rest ->].
  rewrite key_is_int. simpl. apply Z.eqb_eq.
Qed.

Lemma max_key_nonneg (l : list row) : 0 ≤ max_key l.
Proof. induction l as [|[|[] ?] l IH]; simpl; lia. Qed.

Lemma max_key_bound (l : list row) (r : row) :
  r ∈ l → row_key r ≤ max_key l.
Proof.
  induction l as [|r' l IH]; [by intros ?%elem_of_nil|].
  pose proof (max_key_nonneg l).
  intros [Heq|Hin]%elem_of_cons; simpl.
  - subst r'. destruct r as [|[] ?]; simpl; lia.
  - specialize (IH Hin). destruct r' as [|[] ?]; lia.
Qed.

(** ** Creating and reading a scene *)

Lemma filter_none {A : Type} (P : A → Prop) `{!∀ x, Decision (P x)}
    (l : list A) :
  Forall (λ x, ¬ P x) l → filter P l = [].
Proof.
  induction 1 as [|x l Hx _ IH]; [done|].
  by rewrite filter_cons_False.
Qed.

Lemma no_row_has_next_key (t : table) (T : Table) :
  has_rowid_key t = true → table_ok t (t_rows T) = true →
  filter (λ r, key_is (next_key T) r) (t_rows T) = [].
Proof.
  intros Ht Hok. apply filter_none, Forall_forall.
  intros r Hin Hkey. apply Is_true_true in Hkey.
  apply (key_is_row_key t) in Hkey; [|done|by eapply table_ok_row].
  pose proof (max_key_bound _ _ Hin). unfold next_key in Hkey. lia.
Qed.

Lemma insert_scenes (vals : list value) (c : Conn) :
  insert Scenes vals c =
  (Return (next_key (get_table (view c) Scenes)),
   write (set_table Scenes
            (mkTable (rows (view c) Scenes ++
                      [VInt (next_key (get_table (view c) Scenes)) :: vals])
               (next_key (get_table (view c) Scenes)))
            (view c)) c).
Proof. unfold insert. simpl. by rewrite andb_false_r. Qed.

(** C5. A scene created from a metadata mapping that has the three
    required keys reads back, through the id that [create_scene]
    returned, as the dictionary of its columns: the six stored fields
    are the values of the mapping, an optional key that is absent reads
    back as NULL. *)
Theorem create_scene_get_scene (c : Conn) (M : gmap string value)
    (timestamp camera_id media_path : value) :
  well_formed (view c) = true →
  M !! "timestamp"%string = Some timestamp →
  M !! "camera_id"%string = Some camera_id →
  M !! "media_path"%string = Some media_path →
  ∃ i c',
    create_scene M c = (Return i, c') ∧
    get_scene i c' =
    (Return (Some (Dict [("scene_id", VInt i);
                         ("timestamp", timestamp);
                         ("latitude", default VNull (M !! "latitude"));
                         ("longitude", default VNull (M !! "longitude"));
                         ("resolution", default VNull (M !! "resolution"));
                         ("camera_id", camera_id);
                         ("media_path", media_path)]%string)), c').
Proof.
  intros Hwf Hts Hcam Hpath.
  unfold create_scene, add_scene, mbind, Py_bind, pure, getitem.
  rewrite Hts, Hcam, Hpath. simpl. rewrite insert_scenes.
  eexists _, _. split; [done|].
  unfold get_scene, mbind, Py_bind, select. rewrite view_write.
  rewrite rows_set_table. simpl. rewrite filter_app.
  rewrite (no_row_has_next_key Scenes);
    [|done|by apply (well_formed_table (view c) Scenes)].
  rewrite filter_cons_True by (by rewrite key_is_int, Z.eqb_refl).
  done.
Qed.

(** [create_scene] commits nothing: the new row lives in the open
    transaction until a later [with self.conn:] block ends. *)
Lemma create_scene_leaves_transaction_open (metadata : gmap string value)
    (c c' : Conn) (i : Z) :
  create_scene metadata c = (Return i, c') →
  committed c' = committed c ∧ is_Some (pending c').
Proof.
  unfold create_scene, add_scene, mbind, Py_bind, pure.
  destruct (outcome_bind _ _ _ _) as [values|e]; [|done].
  rewrite insert_scenes. intros [= _ <-]. by split.
Qed.

(** ** The SET clause *)

(** The names of the schema are words, and each names its own column. *)
Lemma columns_plain (t : table) :
  Forall (λ col, word col = true ∧ names_column t col = Some col) (columns t).
Proof. destruct t; repeat constructor; by vm_compute. Qed.

(** A mapping whose keys are column names in the spelling of the schema
    is its own SET clause. *)
Lemma set_list_plain (t : table) (U : gmap string value) :
  U ≠ ∅ → (∀ k v, U !! k = Some v → k ∈ columns t) →
  set_list t U = Return U.
Proof.
  intros Hne Hcols.
  assert (∀ k v, U !! k = Some v →
            word k = true ∧ names_column t k = Some k) as Hplain.
  { intros k v Hk. pose proof (columns_plain t) as Hall.
    rewrite Forall_forall in Hall. by eapply Hall, Hcols. }
  assert (resolved t U = map_to_list U) as Hresolved.
  { unfold resolved. rewrite <- (list_fmap_id (map_to_list U)) at 2.
    apply list_fmap_ext. intros i [k v] Hkv. simpl.
    apply list_elem_of_lookup_2, elem_of_map_to_list in Hkv.
    by destruct (Hplain k v Hkv) as [_ ->]. }
  unfold set_list. rewrite decide_False by done.
  rewrite bool_decide_eq_true_2
    by (intros k v Hk; by destruct (Hplain k v Hk)).
  rewrite bool_decide_eq_true_2
    by (intros k v Hk; destruct (Hplain k v Hk) as [_ ->]; by eexists).
  rewrite Hresolved.
  rewrite bool_decide_eq_true_2 by apply NoDup_fst_map_to_list.
  simpl. by rewrite list_to_map_to_list.
Qed.

(** A SET clause that leaves the key alone, or sets it to an integer,
    is taken as it is. *)
Lemma with_rowid_plain (t : table) (U : gmap string value) :
  (∀ col v, head (columns t) = Some col → U !! col = Some v →
            ∃ j, v = VInt j) →
  with_rowid t U = Return U.
Proof.
  intros Hkey. unfold with_rowid.
  destruct (head (columns t)) as [col|]; [|done].
  destruct (U !! col) as [v|] eqn:Hv; [|done].
  destruct (Hkey col v eq_refl Hv) as [j ->]. simpl.
  by rewrite insert_id.
Qed.

(** ** Updates without a column *)

Lemma empty_update (t : table) (key : Z) (c : Conn) :
  with_conn (update t ∅ key) c =
  (Raise (OperationalError "syntax error"), rollback c).
Proof. unfold with_conn, update, set_list. by rewrite decide_True. Qed.

(** C9, as amended. [update_scene], [update_detection] and
    [update_annotation] called with an empty mapping raise the engine's
    syntax error for every id and write nothing. The rollback of
    [with self.conn:] that follows the error leaves the store in its
    last committed state: what was committed stays, what was pending
    on the connection is discarded, and a connection with nothing
    pending is left as it was. *)
Theorem empty_update_raises (c : Conn) (id : Z) :
  update_scene id ∅ c =
    (Raise (OperationalError "syntax error"), rollback c) ∧
  update_detection id ∅ c =
    (Raise (OperationalError "syntax error"), rollback c) ∧
  update_annotation id ∅ c =
    (Raise (OperationalError "syntax error"), rollback c) ∧
  committed (rollback c) = committed c ∧
  view (rollback c) = committed c ∧
  (pending c = None → rollback c = c).
Proof.
  split; [apply empty_update|]. split; [apply empty_update|].
  split; [apply empty_update|]. split; [done|]. split; [done|].
  intros Hidle. destruct c. simpl in *. by subst.
Qed.

(** The rollback that follows the error closes the open transaction:
    a connection without one is left as it was. *)
Lemma empty_update_idle (c : Conn) (id : Z) :
  pending c = None →
  update_scene id ∅ c = (Raise (OperationalError "syntax error"), c).
Proof.
  intros Hidle. unfold update_scene. rewrite empty_update.
  f_equal. destruct c. simpl in *. by subst.
Qed.

(** ** The description triple of a batch record *)

Lemma body_raises_without_triple (r : scene_record) (c : Conn) :
  lacks_triple r → ∃ e c', incremental_update_body r c = (Raise e, c').
Proof.
  intros [[d Hd] Hlack].
  unfold incremental_update_body, mbind, Py_bind, pure, subscript.
  destruct (rec_metadata r) as [metadata|]; [|by eauto].
  destruct (add_scene metadata c) as [[scene_id|e] c1]; [|by eauto].
  destruct (match rec_detections r with
            | Some detections => add_detections scene_id detections
            | None => mret ()
            end c1) as [[[]|e] c2]; [|by eauto].
  rewrite Hd.
  destruct (rec_confidence r) as [confidence|]; [|by eauto].
  destruct Hlack as [?| ->]; [done|by eauto].
Qed.

(** The error is the [KeyError] of the first key of the triple that is
    missing, once the scene and the detections of the record are in. *)
Lemma body_key_error (r : scene_record) (metadata : gmap string value)
    (description : value) (scene_id : Z) (c c1 c2 : Conn) :
  rec_metadata r = Some metadata →
  add_scene metadata c = (Return scene_id, c1) →
  match rec_detections r with
  | Some detections => add_detections scene_id detections
  | None => mret ()
  end c1 = (Return (), c2) →
  rec_description r = Some description →
  (rec_confidence r = None →
   incremental_update_body r c = (Raise (KeyError "confidence"), c2)) ∧
  (is_Some (rec_confidence r) → rec_model_version r = None →
   incremental_update_body r c = (Raise (KeyError "model_version"), c2)).
Proof.
  intros Hmeta Hscene Hdets Hdesc.
  unfold incremental_update_body, mbind, Py_bind, pure, subscript.
  rewrite Hmeta, Hscene, Hdets, Hdesc.
  split; [by intros ->|]. by intros [confidence ->] ->.
Qed.

Lemma for_each_app {A : Type} (l1 l2 : list A) (body : A → Py ()) (c : Conn) :
  for_each (l1 ++ l2) body c =
  match for_each l1 body c with
  | (Return _, c1) => for_each l2 body c1
  | (Raise e, c1) => (Raise e, c1)
  end.
Proof.
  revert c. induction l1 as [|x l1 IH]; intros c; [done|].
  simpl. unfold mbind, Py_bind.
  destruct (body x c) as [[[]|e] c1]; [apply IH|done].
Qed.

(** C10. A batch that holds a record with a ['description'] key but
    without ['confidence'] or without ['model_version'] makes
    [incremental_update] raise; when the records before it were
    processed, the error is the one raised while that record is
    processed. *)
Theorem incremental_update_needs_triple (before after : list scene_record)
    (r : scene_record) (c : Conn) :
  lacks_triple r →
  ∃ e c',
    incremental_update (before ++ r :: after) c = (Raise e, c') ∧
    ∀ c1, for_each before incremental_update_body c = (Return (), c1) →
          ∃ c2, incremental_update_body r c1 = (Raise e, c2).
Proof.
  intros Hlack. unfold incremental_update, with_conn.
  rewrite for_each_app.
  destruct (for_each before incremental_update_body c) as [[[]|e] c1].
  - destruct (body_raises_without_triple r c1 Hlack) as (e & c2 & Hbody).
    simpl. unfold mbind, Py_bind. rewrite Hbody.
    eexists _, _. split; [done|]. intros ? [= <-]. eauto.
  - eexists _, _. split; [done|]. intros ? [=].
Qed.

(** ** The order of values *)

Lemma string_compare_trans (s t u : string) :
  (s ?= t)%string ≠ Gt → (t ?= u)%string ≠ Gt → (s ?= u)%string ≠ Gt.
Proof.
  revert t u. induction s as [|a s IH]; intros [|b t] [|d u]; simpl; try done.
  unfold Ascii.compare.
  destruct (N.compare_spec (Ascii.N_of_ascii a) (Ascii.N_of_ascii b))
    as [Hab|Hab|Hab]; [| |done];
  destruct (N.compare_spec (Ascii.N_of_ascii b) (Ascii.N_of_ascii d))
    as [Hbd|Hbd|Hbd]; try done; intros Hst Htu.
  - rewrite Hab, Hbd, N.compare_refl. eauto.
  - rewrite Hab. by apply N.compare_lt_iff in Hbd as ->.
  - rewrite <- Hbd. by apply N.compare_lt_iff in Hab as ->.
  - assert (Ascii.N_of_ascii a < Ascii.N_of_ascii d)%N as Had by lia.
    by apply N.compare_lt_iff in Had as ->.
Qed.

Lemma not_Gt (x : comparison) :
  match x with Gt => false | _ => true end = true ↔ x ≠ Gt.
Proof. by destruct x. Qed.

Lemma value_leb_trans (a b d : value) :
  value_leb a b = true → value_leb b d = true → value_leb a d = true.
Proof.
  unfold value_leb. rewrite !not_Gt.
  destruct a, b, d; simpl; try done;
    try (rewrite <- !Qle_alt; apply Qle_trans).
  apply string_compare_trans.
Qed.

Lemma value_leb_total (a b : value) :
  value_leb a b = true ∨ value_leb b a = true.
Proof.
  unfold value_leb.
  destruct a as [|x|p|s], b as [|y|q|t]; simpl; auto;
    try (match goal with |- context [Qcompare ?u ?v] =>
           rewrite <- (Qcompare_antisym v u); destruct (Qcompare v u)
         end; simpl; by auto).
  rewrite (String.compare_antisym t s). destruct (s ?= t)%string; simpl; auto.
Qed.

#[global] Instance newer_first_trans : Transitive newer_first.
Proof.
  intros r1 r2 r3. unfold newer_first. rewrite !Is_true_true.
  intros H12 H23. by eapply value_leb_trans.
Qed.

#[global] Instance newer_first_total : Total newer_first.
Proof.
  intros r1 r2. unfold newer_first. rewrite !Is_true_true.
  destruct (value_leb_total (column 1 r2) (column 1 r1)); auto.
Qed.

(** ** Rows as dictionaries *)

Lemma row_to_dict_columns (t : table) (r : row) :
  length r = length (columns t) →
  _row_to_dict r (cursor_description t) = Return (mapping_of t r).
Proof.
  intros Hlen.
  destruct t; simpl in Hlen;
    do 11 (destruct r as [|? r]; [try done|]); try done.
Qed.

Lemma comprehension_dicts (t : table) (l : list row) :
  Forall (λ r, row_ok t r = true) l →
  comprehension (λ row, _row_to_dict row (cursor_description t)) l =
  Return (mapping_of t <$> l).
Proof.
  induction 1 as [|r l Hr _ IH]; [done|]. simpl.
  rewrite row_to_dict_columns by by apply row_ok_length.
  by rewrite IH.
Qed.

Lemma rows_ok_filter (db : Database) (t : table) (P : row → bool) :
  well_formed db = true →
  Forall (λ r, row_ok t r = true) (filter (λ r, P r) (rows db t)).
Proof.
  intros Hwf. apply Forall_forall. intros r [_ Hin]%list_elem_of_filter.
  eapply table_ok_row; [by apply well_formed_table|done].
Qed.

(** ** The most recent scenes *)

Lemma sorted_scenes (l : list row) :
  merge_sort newer_first l ≡ₚ l ∧
  StronglySorted newer_first (merge_sort newer_first l).
Proof.
  split; [apply merge_sort_Permutation|].
  apply StronglySorted_merge_sort; apply _.
Qed.

Lemma get_all_scenes_dicts (c : Conn) (n : Z) :
  well_formed (view c) = true →
  get_all_scenes n c =
  (Return (mapping_of Scenes <$>
           sql_limit n (merge_sort newer_first (rows (view c) Scenes))), c).
Proof.
  intros Hwf. unfold get_all_scenes, rows_to_dicts, pure.
  rewrite comprehension_dicts; [done|].
  apply Forall_forall. intros r Hin.
  assert (r ∈ merge_sort newer_first (rows (view c) Scenes)) as Hsorted.
  { unfold sql_limit in Hin. destruct (n <? 0); [done|].
    eapply subseteq_take, Hin. }
  rewrite merge_sort_Permutation in Hsorted.
  eapply table_ok_row; [by apply well_formed_table|done].
Qed.

(** What [get_all_scenes] returns for any limit: the dictionaries of
    the first scenes in the order of the timestamps from the greatest
    down, as many as the limit says, and all of them when the limit is
    negative. *)
Lemma get_all_scenes_top (c : Conn) (n : Z) :
  well_formed (view c) = true →
  ∃ top rest : list row,
    get_all_scenes n c = (Return (mapping_of Scenes <$> top), c) ∧
    top ++ rest ≡ₚ rows (view c) Scenes ∧
    length top =
      (if n <? 0 then length (rows (view c) Scenes)
       else (Z.to_nat n `min` length (rows (view c) Scenes))%nat) ∧
    StronglySorted newer_first top ∧
    ∀ r r', r ∈ top → r' ∈ rest → newer_first r r'.
Proof.
  intros Hwf.
  destruct (sorted_scenes (rows (view c) Scenes)) as [Hperm Hsorted].
  exists (sql_limit n (merge_sort newer_first (rows (view c) Scenes))),
         (if n <? 0 then []
          else drop (Z.to_nat n)
                 (merge_sort newer_first (rows (view c) Scenes))).
  split; [by apply get_all_scenes_dicts|].
  set (sorted := merge_sort newer_first (rows (view c) Scenes)) in *.
  unfold sql_limit. destruct (n <? 0).
  - rewrite app_nil_r. repeat split; try done.
    + by rewrite Hperm.
    + by intros r r' _ ?%elem_of_nil.
  - rewrite take_drop. repeat split; try done.
    + by rewrite length_take, Hperm.
    + rewrite <- (take_drop (Z.to_nat n) sorted) in Hsorted.
      by apply StronglySorted_app_1_l in Hsorted.
    + rewrite <- (take_drop (Z.to_nat n) sorted) in Hsorted.
      intros r r' Hr Hr'.
      by eapply StronglySorted_app_1_elem_of.
Qed.


(** ** Training data *)

Lemma filter_all {A : Type} (P : A → Prop) `{!∀ x, Decision (P x)}
    (l : list A) :
  Forall P l → filter P l = l.
Proof.
  induction 1 as [|x l Hx _ IH]; [done|].
  by rewrite filter_cons_True, IH.
Qed.

Lemma bind_const {A B : Type} (l : list A) (x : list B) :
  (l ≫= λ _, x) = mjoin (replicate (length l) x).
Proof. induction l as [|a l IH]; [done|]. simpl. f_equal. apply IH. Qed.

Lemma length_join_replicate {B : Type} (n : nat) (x : list B) :
  length (mjoin (replicate n x)) = (n * length x)%nat.
Proof.
  induction n as [|n IH]; [done|]. simpl.
  rewrite length_app, IH. lia.
Qed.

Lemma training_rows_joined (db : Database) :
  training_rows db = rows db Scenes ≫= joined db.
Proof. done. Qed.

Lemma joined_key (db : Database) (s r : row) (i : Z) :
  row_ok Scenes s = true → r ∈ joined db s → key_is i r = key_is i s.
Proof.
  intros Hs. destruct (row_ok_key Scenes s eq_refl Hs) as [rest Heq].
  unfold joined. rewrite bind_const.
  intros (l & Hr & Hl)%list_elem_of_join.
  apply elem_of_replicate in Hl as [-> _].
  unfold described in Hr. rewrite Heq in *.
  destruct (filter _ _) as [|d ds].
  - by apply list_elem_of_singleton in Hr as ->.
  - by apply list_elem_of_fmap in Hr as (d' & -> & _).
Qed.

Lemma filter_joined (db : Database) (l : list row) (s : row) :
  Forall (λ r, row_ok Scenes r = true) l →
  NoDup (row_key <$> l) → s ∈ l →
  filter (λ r, key_is (row_key s) r) (l ≫= joined db) = joined db s.
Proof.
  intros Hok Hkeys Hin.
  assert (∀ s' : row, row_ok Scenes s' = true → row_key s' ≠ row_key s →
            filter (λ r, key_is (row_key s) r) (joined db s') = []) as Hother.
  { intros s' Hs' Hne. apply filter_none, Forall_forall. intros r Hr.
    rewrite (joined_key db s' r) by done. intros Hkey%Is_true_true.
    by apply (key_is_row_key Scenes) in Hkey. }
  induction l as [|s' l IH]; [by apply elem_of_nil in Hin|].
  apply Forall_cons in Hok as [Hs' Hok].
  rewrite fmap_cons in Hkeys. apply NoDup_cons in Hkeys as [Hfresh Hkeys].
  rewrite bind_cons, filter_app.
  apply elem_of_cons in Hin as [->|Hin].
  - rewrite filter_all.
    + rewrite filter_none; [by rewrite app_nil_r|].
      apply Forall_forall. intros r (s'' & Hr & Hs'')%list_elem_of_bind.
      assert (row_ok Scenes s'' = true) as Hok''
        by (by eapply Forall_forall in Hok).
      rewrite (joined_key db s'' r) by done. intros Hkey%Is_true_true.
      apply (key_is_row_key Scenes) in Hkey; [|done..].
      apply Hfresh. rewrite <- Hkey. by apply list_elem_of_fmap_2.
    + apply Forall_forall. intros r Hr.
      rewrite (joined_key db s' r) by done. apply Is_true_true.
      by apply (key_is_row_key Scenes).
  - rewrite Hother, IH; [done..|].
    intros Heq. apply Hfresh. rewrite Heq. by apply list_elem_of_fmap_2.
Qed.

(** C6, as amended. [get_training_data] returns, for a scene, one row
    for every pair of a 'train' assignment row of the scene and a
    description of the scene: the scene's columns followed by the
    description text. A scene with a 'train' assignment is in the
    result; without a description it comes with NULL in the description
    field, once per 'train' assignment; with [k] descriptions it comes
    [k] times per 'train' assignment. Neither the descriptions nor the
    assignments are deduplicated. *)
Theorem get_training_data_rows (c : Conn) :
  well_formed (view c) = true →
  ∃ res : list row,
    get_training_data c = (Return (Tuple <$> res), c) ∧
    (∀ r, r ∈ res →
       ∃ s, s ∈ rows (view c) Scenes ∧ key_is (row_key s) r = true) ∧
    ∀ s, s ∈ rows (view c) Scenes →
      let assignments := train_assignments (view c) (row_key s) in
      let descriptions := descriptions_of (view c) (row_key s) in
      let mine := filter (λ r, key_is (row_key s) r) res in
      mine = (_ ← assignments;
              match descriptions with
              | [] => [s ++ [VNull]]
              | _ => (λ d, s ++ [column 2 d]) <$> descriptions
              end) ∧
      (assignments ≠ [] → mine ≠ []) ∧
      (descriptions = [] → Forall (λ r, r = s ++ [VNull]) mine) ∧
      length mine = (length assignments * (length descriptions `max` 1))%nat.
Proof.
  intros Hwf. exists (training_rows (view c)). split; [done|].
  pose proof (well_formed_table _ Scenes Hwf) as Hscenes.
  split.
  { intros r. rewrite training_rows_joined.
    intros (s & Hr & Hs)%list_elem_of_bind. exists s. split; [done|].
    assert (row_ok Scenes s = true) as Hok by by eapply table_ok_row.
    rewrite (joined_key _ s r) by done. by apply (key_is_row_key Scenes). }
  intros s Hs assignments descriptions mine.
  assert (row_ok Scenes s = true) as Hok by by eapply table_ok_row.
  assert (mine = (_ ← assignments;
                  match descriptions with
                  | [] => [s ++ [VNull]]
                  | _ => (λ d, s ++ [column 2 d]) <$> descriptions
                  end)) as Hmine.
  { unfold mine. rewrite training_rows_joined, filter_joined; try done.
    - unfold joined, described, assignments, descriptions,
        train_assignments, descriptions_of.
      by destruct (row_ok_key Scenes s eq_refl Hok) as [rest ->].
    - apply Forall_forall. intros r Hr. by eapply table_ok_row.
    - by apply (table_ok_keys Scenes). }
  split; [done|]. rewrite Hmine, bind_const. repeat split.
  - destruct assignments; [done|]. intros _. simpl.
    destruct descriptions; done.
  - intros ->. apply Forall_forall.
    intros r (l & Hr & Hl)%list_elem_of_join.
    apply elem_of_replicate in Hl as [-> _].
    by apply list_elem_of_singleton in Hr.
  - rewrite length_join_replicate. f_equal.
    destruct descriptions; [done|]. rewrite length_fmap. simpl. lia.
Qed.

(** ** Partial updates *)

Lemma existsb_key_is (t : table) (l : list row) (k : Z) :
  has_rowid_key t = true → Forall (λ r, row_ok t r = true) l →
  existsb (key_is k) l = true ↔ k ∈ row_key <$> l.
Proof.
  intros Ht Hok. rewrite existsb_exists, list_elem_of_fmap. split.
  - intros (r & Hin%list_elem_of_In & Hkey). exists r. split; [|done].
    symmetry. apply (key_is_row_key t); [done| |done].
    by eapply Forall_forall in Hok.
  - intros (r & -> & Hin). exists r. split; [by apply list_elem_of_In|].
    apply (key_is_row_key t); [done| |done].
    by eapply Forall_forall in Hok.
Qed.

Lemma update_one_row (t : table) (l : list row) (pos : nat) (r : row)
    (f : row → row) :
  has_rowid_key t = true → Forall (λ r, row_ok t r = true) l →
  NoDup (row_key <$> l) → l !! pos = Some r →
  (λ r', if key_is (row_key r) r' then f r' else r') <$> l = <[pos := f r]> l.
Proof.
  intros Ht Hok Hkeys Hpos. apply list_eq. intros j.
  rewrite list_lookup_fmap.
  assert (row_ok t r = true) as Hr
    by (eapply Forall_forall in Hok; [done|by eapply list_elem_of_lookup_2]).
  destruct (decide (j = pos)) as [->|Hne].
  - rewrite list_lookup_insert_eq by by eapply lookup_lt_Some.
    rewrite Hpos. simpl.
    by rewrite (proj2 (key_is_row_key t (row_key r) r Ht Hr)).
  - rewrite list_lookup_insert_ne by done.
    destruct (l !! j) as [r'|] eqn:Hj; [|done]. simpl.
    destruct (key_is (row_key r) r') eqn:Hkey; [|done].
    assert (row_ok t r' = true) as Hr'
      by (eapply Forall_forall in Hok; [done|by eapply list_elem_of_lookup_2]).
    apply (key_is_row_key t) in Hkey; [|done..].
    destruct Hne. eapply NoDup_lookup; [done| |].
    + by rewrite list_lookup_fmap, Hj.
    + rewrite list_lookup_fmap, Hpos. simpl. by rewrite Hkey.
Qed.

Lemma assign_lookup (cols : list string) (U : gmap string value) (r : row)
    (j : nat) (col : string) :
  length r = length cols → cols !! j = Some col →
  assign cols U r !! j = Some (default (column j r) (U !! col)).
Proof.
  intros Hlen Hcol. unfold assign, column. rewrite list_lookup_imap.
  destruct (r !! j) as [v|] eqn:Hv; simpl.
  - by rewrite Hcol.
  - apply lookup_ge_None in Hv. apply lookup_lt_Some in Hcol. lia.
Qed.

Lemma update_scene_accepted (c : Conn) (i : Z) (U : gmap string value) :
  well_formed (view c) = true → key_assignment_ok c i U →
  update_rejected c Scenes U i = None.
Proof.
  intros Hwf Hkey.
  unfold update_rejected, key_rejected, reference_rejected,
    key_assignment_ok in *. simpl.
  destruct (U !! "scene_id"%string) as [v|]; [|done].
  destruct Hkey as [->|(j & -> & Hfresh & Hfk)].
  - rewrite Z.eqb_refl. simpl. by rewrite andb_false_r.
  - destruct (existsb (key_is j) (rows (view c) Scenes)) eqn:Hexists.
    + apply (existsb_key_is Scenes) in Hexists; [done..|].
      apply Forall_forall. intros r Hr.
      eapply table_ok_row; [by apply well_formed_table|done].
    + rewrite andb_false_r.
      destruct (foreign_keys c); [|done].
      by rewrite Hfk, !andb_false_r.
Qed.

(** C8, as amended. For a scene [i] that exists and a mapping [U] that
    is not empty, names columns of [scenes] only and leaves the key
    alone (or moves it to a free integer), [update_scene i U] sets on
    the row of [i] the columns that [U] names to the values of [U],
    keeps the other columns of the row, the other rows of [scenes] and
    the rows of the other tables. *)
Theorem update_scene_frame (c : Conn) (i : Z) (U : gmap string value)
    (pos : nat) (r : row) :
  well_formed (view c) = true →
  rows (view c) Scenes !! pos = Some r → row_key r = i →
  U ≠ ∅ →
  (∀ k v, U !! k = Some v → k ∈ columns Scenes) →
  key_assignment_ok c i U →
  ∃ c' r',
    update_scene i U c = (Return (), c') ∧
    rows (view c') Scenes = <[pos := r']> (rows (view c) Scenes) ∧
    length r' = length r ∧
    (∀ j col, columns Scenes !! j = Some col →
              r' !! j = Some (default (column j r) (U !! col))) ∧
    (∀ t, t ≠ Scenes → rows (view c') t = rows (view c) t).
Proof.
  intros Hwf Hpos <- Hne Hcols Hkey.
  pose proof (well_formed_table _ Scenes Hwf) as Hscenes.
  assert (Forall (λ r, row_ok Scenes r = true) (rows (view c) Scenes)) as Hok.
  { apply Forall_forall. intros r' Hr'. by eapply table_ok_row. }
  assert (row_ok Scenes r = true) as Hr
    by (eapply Forall_forall in Hok; [done|by eapply list_elem_of_lookup_2]).
  exists (commit (write (set_rows Scenes
                   (<[pos := assign (columns Scenes) U r]>
                      (rows (view c) Scenes)) (view c)) c)),
         (assign (columns Scenes) U r).
  split; [|split; [|split; [|split]]].
  - unfold update_scene, with_conn, update.
    rewrite set_list_plain by done. cbv zeta.
    rewrite (proj2 (existsb_key_is Scenes _ _ eq_refl Hok))
      by (apply list_elem_of_fmap_2; by eapply list_elem_of_lookup_2).
    rewrite with_rowid_plain.
    2:{ intros col v [= <-] Hv. unfold key_assignment_ok in Hkey.
        rewrite Hv in Hkey. destruct Hkey as [->|(j & -> & _)]; by eexists. }
    rewrite update_scene_accepted by done.
    rewrite (update_one_row Scenes _ pos r); try done.
    by apply (table_ok_keys Scenes).
  - by rewrite view_commit, view_write, rows_set_rows.
  - unfold assign. by rewrite length_imap.
  - intros j col Hcol. apply assign_lookup; [|done].
    by apply row_ok_length.
  - intros t Ht. rewrite view_commit, view_write, rows_set_rows.
    by case_decide.
Qed.

(** ** Foreign keys *)

Lemma rows_cascade_scenes (k : Z) (db : Database) :
  rows (cascade k db) Scenes = rows db Scenes.
Proof. done. Qed.

Lemma rows_cascade_child (k : Z) (db : Database) (t : table) (j : nat) :
  scene_ref t = Some j →
  rows (cascade k db) t = filter (λ r, negb (refers j k r)) (rows db t).
Proof. by destruct t; intros [= <-]. Qed.

(** Whatever the connection enforces, the scene itself is gone after
    [delete_scene]. *)
Lemma delete_scene_removes_scene (c : Conn) (scene_id : Z) :
  ∃ c', delete_scene scene_id c = (Return (), c') ∧
        ∀ r, r ∈ rows (view c') Scenes → key_is scene_id r = false.
Proof.
  eexists. split; [done|]. intros r.
  rewrite view_commit, view_write.
  destruct (_ && _); rewrite ?rows_cascade_scenes, rows_set_rows;
    case_decide; try done;
    intros [Hkey _]%list_elem_of_filter; by destruct (key_is scene_id r).
Qed.

(** On a connection that enforces the foreign keys, deleting a scene
    takes the rows that reference it along. *)
Lemma delete_scene_cascades (c : Conn) (scene_id : Z) :
  foreign_keys c = true → referential_integrity (view c) →
  ∃ c', delete_scene scene_id c = (Return (), c') ∧
        ∀ t j r, scene_ref t = Some j → r ∈ rows (view c') t →
                 refers j scene_id r = false.
Proof.
  intros Hfk Hint. eexists. split; [done|]. intros t j r Ht.
  rewrite view_commit, view_write, Hfk.
  rewrite bool_decide_eq_true_2 by done.
  destruct (existsb _ _) eqn:Hscene; cbn [andb].
  - rewrite (rows_cascade_child _ _ t j Ht).
    intros [Hkey _]%list_elem_of_filter. by destruct (refers j scene_id r).
  - rewrite rows_set_rows. case_decide; [by subst|].
    intros Hin. destruct (refers j scene_id r) eqn:Href; [|done].
    by rewrite (Hint t j r scene_id Ht Hin Href) in Hscene.
Qed.

Lemma insert_orphan (t : table) (j : nat) (vals : list value) (v : value)
    (c : Conn) :
  foreign_keys c = true → scene_ref t = Some j →
  (new_row t vals (get_table (view c) t)).2 !! j = Some v →
  parent_exists (view c) v = false →
  insert t vals c =
  (Raise (IntegrityError "FOREIGN KEY constraint failed"), write (view c) c).
Proof.
  intros Hfk Ht Hv Hparent. unfold insert, orphan.
  destruct (new_row _ _ _) as [k r]. simpl in Hv.
  by rewrite Hfk, Ht, Hv, Hparent.
Qed.

(** On a connection that enforces the foreign keys, a row for a scene
    that does not exist is refused by each of the four inserts, and the
    open transaction is rolled back. *)
Lemma orphan_inserts_rejected (c : Conn) (scene_id : Z) :
  foreign_keys c = true → parent_exists (view c) (VInt scene_id) = false →
  (∀ d ds values,
     comprehension (detection_values scene_id) (d :: ds) = Return values →
     add_detections scene_id (d :: ds) c =
     (Raise (IntegrityError "FOREIGN KEY constraint failed"), rollback c)) ∧
  (∀ annotation label_type,
     annotation !! "label_type"%string = Some label_type →
     add_annotation scene_id annotation c =
     (Raise (IntegrityError "FOREIGN KEY constraint failed"), rollback c)) ∧
  (∀ description confidence model_version,
     add_scene_description scene_id description confidence model_version c =
     (Raise (IntegrityError "FOREIGN KEY constraint failed"), rollback c)) ∧
  (∀ scene_ids dataset_type,
     assign_to_dataset (scene_id :: scene_ids) dataset_type c =
     (Raise (IntegrityError "FOREIGN KEY constraint failed"), rollback c)).
Proof.
  intros Hfk Hparent. repeat split.
  - intros d ds values Hvalues.
    unfold add_detections, mbind, Py_bind, pure. rewrite Hvalues.
    simpl in Hvalues. unfold mbind, outcome_bind in Hvalues.
    destruct (detection_values scene_id d) as [vals|] eqn:Hd; [|done].
    destruct (comprehension _ ds) as [rest|]; [|done].
    injection Hvalues as <-.
    unfold with_conn, executemany. simpl. unfold mbind, Py_bind.
    rewrite (insert_orphan Detections 1 vals (VInt scene_id)); try done.
    unfold detection_values, mbind, outcome_bind in Hd.
    repeat match type of Hd with
           | match ?x with _ => _ end = _ => destruct x; [|done]
           end.
    by injection Hd as <-.
  - intros annotation label_type Hlabel.
    unfold add_annotation, mbind, Py_bind, pure, getitem. rewrite Hlabel.
    simpl. unfold with_conn, mbind, Py_bind.
    by rewrite (insert_orphan Annotations 1 _ (VInt scene_id)).
  - intros description confidence model_version.
    unfold add_scene_description, with_conn, mbind, Py_bind.
    by rewrite (insert_orphan SceneDescriptions 1 _ (VInt scene_id)).
  - intros scene_ids dataset_type.
    unfold assign_to_dataset, with_conn, executemany. simpl.
    unfold mbind, Py_bind.
    by rewrite (insert_orphan Datasets 0 _ (VInt scene_id)).
Qed.

(** ** Batches *)

(** An error leaves no transaction open. *)
Lemma incremental_update_rolls_back (new_scenes : list scene_record)
    (c c' : Conn) (e : exn) :
  incremental_update new_scenes c = (Raise e, c') → pending c' = None.
Proof.
  unfold incremental_update, with_conn.
  destruct (for_each _ _ c) as [[[]|e'] c1]; by intros [= _ <-].
Qed.

Lemma add_scene_rollback (metadata : gmap string value) (c c1 : Conn)
    (o : outcome Z) :
  add_scene metadata c = (o, c1) → rollback c1 = rollback c.
Proof.
  unfold add_scene, mbind, Py_bind, pure.
  destruct (outcome_bind _ _ _ _) as [values|e].
  - rewrite insert_scenes. by intros [= _ <-].
  - by intros [= _ <-].
Qed.

(** X23. A batch that fails in its first record before the detections
    of that record are written leaves nothing behind: the scene row of
    the record is rolled back with the rest of the open transaction. *)
Lemma incremental_update_first_record_undone (r : scene_record)
    (rest : list scene_record) (metadata : gmap string value)
    (detections : list detection) (scene_id : Z) (e : exn) (c c1 : Conn) :
  rec_metadata r = Some metadata →
  add_scene metadata c = (Return scene_id, c1) →
  rec_detections r = Some detections →
  comprehension (detection_values scene_id) detections = Raise e →
  incremental_update (r :: rest) c = (Raise e, rollback c).
Proof.
  intros Hmeta Hscene Hdets Hvalues.
  unfold incremental_update, with_conn. simpl.
  unfold incremental_update_body, mbind, Py_bind, pure, subscript.
  rewrite Hmeta, Hscene, Hdets.
  unfold add_detections, mbind, Py_bind, pure. rewrite Hvalues.
  by rewrite (add_scene_rollback _ _ _ _ Hscene).
Qed.

(** ** The schema invariant is kept *)

Lemma well_formed_tables (db : Database) :
  well_formed db = true ↔ ∀ t, table_ok t (rows db t) = true.
Proof.
  split; [intros Hwf t; by apply well_formed_table|].
  intros Hall. unfold well_formed, tables. simpl. by rewrite !Hall.
Qed.

Lemma table_ok_spec (t : table) (l : list row) :
  table_ok t l = true ↔
  Forall (λ r, row_ok t r = true) l ∧
  (has_rowid_key t = true → NoDup (row_key <$> l)).
Proof.
  unfold table_ok. rewrite andb_true_iff, forallb_forall, Forall_forall.
  split; intros [Hrows Hkeys];
    (split; [intros r Hr; by apply Hrows, list_elem_of_In|]).
  - intros Ht. rewrite Ht in Hkeys. by apply bool_decide_eq_true in Hkeys.
  - destruct (has_rowid_key t); [|done].
    apply bool_decide_eq_true. by apply Hkeys.
Qed.

Lemma well_formed_set_table (t : table) (T : Table) (db : Database) :
  well_formed db = true → table_ok t (t_rows T) = true →
  well_formed (set_table t T db) = true.
Proof.
  rewrite !well_formed_tables. intros Hdb HT t'.
  rewrite rows_set_table. case_decide; by subst.
Qed.

Lemma well_formed_set_rows (t : table) (l : list row) (db : Database) :
  well_formed db = true → table_ok t l = true →
  well_formed (set_rows t l db) = true.
Proof. intros. by apply well_formed_set_table. Qed.

Lemma table_ok_filter (t : table) (P : row → bool) (l : list row) :
  table_ok t l = true → table_ok t (filter (λ r, P r) l) = true.
Proof.
  rewrite !table_ok_spec. intros [Hrows Hkeys]. split.
  - apply Forall_forall. intros r [_ Hr]%list_elem_of_filter.
    by eapply Forall_forall in Hrows.
  - intros Ht. eapply sublist_NoDup; [by apply Hkeys|].
    apply fmap_sublist, sublist_filter.
Qed.

Lemma table_ok_new_row (t : table) (vals : list value) (T : Table) :
  (length vals + (if has_rowid_key t then 1 else 0))%nat
    = length (columns t) →
  table_ok t (t_rows T) = true →
  table_ok t (t_rows T ++ [(new_row t vals T).2]) = true.
Proof.
  rewrite !table_ok_spec. intros Hlen [Hrows Hkeys]. unfold new_row.
  destruct (has_rowid_key t) eqn:Ht; simpl; (split; [|intros Hkey]).
  - apply Forall_app. split; [done|]. apply Forall_singleton.
    unfold row_ok. rewrite Ht.
    apply andb_true_iff. split; [apply Nat.eqb_eq; simpl; lia|done].
  - rewrite fmap_app. apply NoDup_app. split; [by apply Hkeys|].
    split; [|apply NoDup_singleton].
    intros k (r & Hk & Hr)%list_elem_of_fmap Hnew%list_elem_of_singleton.
    pose proof (max_key_bound _ _ Hr). simpl in Hnew. unfold next_key in Hnew.
    lia.
  - apply Forall_app. split; [done|]. apply Forall_singleton.
    unfold row_ok. rewrite Ht.
    apply andb_true_iff. split; [apply Nat.eqb_eq; simpl; lia|done].
  - done.
Qed.

Lemma init_ok (file : Database) :
  well_formed file = true → conn_ok (__init__ file).
Proof. by split. Qed.

Lemma keeps_ret {A : Type} (a : A) : keeps_schema (mret a : Py A).
Proof. by intros c. Qed.

Lemma keeps_pure {A : Type} (o : outcome A) : keeps_schema (pure o).
Proof. by intros c. Qed.

Lemma keeps_bind {A B : Type} (m : Py A) (f : A → Py B) :
  keeps_schema m → (∀ a, keeps_schema (f a)) → keeps_schema (m ≫= f).
Proof.
  intros Hm Hf c Hc. unfold mbind, Py_bind. specialize (Hm c Hc).
  destruct (m c) as [[a|e] c1]; [by apply Hf|done].
Qed.

Lemma keeps_with_conn {A : Type} (m : Py A) :
  keeps_schema m → keeps_schema (with_conn m).
Proof.
  intros Hm c Hc. unfold with_conn. specialize (Hm c Hc).
  destruct (m c) as [[a|e] c1]; destruct Hm; by split.
Qed.

Lemma keeps_for_each {A : Type} (l : list A) (body : A → Py ()) :
  (∀ x, keeps_schema (body x)) → keeps_schema (for_each l body).
Proof.
  intros Hbody. induction l as [|x l IH]; [apply keeps_ret|].
  apply keeps_bind; [apply Hbody|by intros _].
Qed.

Lemma keeps_insert (t : table) (vals : list value) :
  (length vals + (if has_rowid_key t then 1 else 0))%nat
    = length (columns t) →
  keeps_schema (insert t vals).
Proof.
  intros Hlen c [Hcommitted Hview]. unfold insert.
  pose proof (table_ok_new_row t vals (get_table (view c) t) Hlen
                (well_formed_table _ t Hview)) as Hnew.
  destruct (new_row _ _ _) as [k r].
  destruct (_ && _); split; try done.
  by apply well_formed_set_table.
Qed.

Lemma keeps_executemany (t : table) (values : list (list value)) :
  Forall (λ vals,
            (length vals + (if has_rowid_key t then 1 else 0))%nat
              = length (columns t)) values →
  keeps_schema (executemany t values).
Proof.
  intros Hvalues. unfold executemany.
  induction Hvalues as [|vals values Hvals _ IH]; [apply keeps_ret|].
  apply keeps_bind; [|by intros _].
  apply keeps_bind; [by apply keeps_insert|intros _; apply keeps_ret].
Qed.

Lemma keeps_delete (t : table) (key : Z) : keeps_schema (delete t key).
Proof.
  intros c [Hcommitted Hview]. split; [done|].
  unfold delete. cbv zeta. cbn [snd]. rewrite view_write.
  assert (well_formed
            (set_rows t (filter (λ r, negb (key_is key r)) (rows (view c) t))
               (view c)) = true) as Hdeleted.
  { apply well_formed_set_rows; [done|].
    by apply table_ok_filter, well_formed_table. }
  destruct (_ && _); [|done].
  apply well_formed_tables. intros t'.
  destruct (scene_ref t') as [j|] eqn:Href.
  - rewrite (rows_cascade_child _ _ t' j Href).
    by apply table_ok_filter, well_formed_table.
  - destruct t'; try done. rewrite rows_cascade_scenes.
    by apply well_formed_table.
Qed.

Lemma assign_row_ok (t : table) (U : gmap string value) (r : row) (col : string)
    (cols : list string) :
  has_rowid_key t = true → columns t = col :: cols →
  row_ok t r = true →
  match U !! col with
  | None => row_ok t (assign (columns t) U r) = true ∧
            row_key (assign (columns t) U r) = row_key r
  | Some (VInt j) => row_ok t (assign (columns t) U r) = true ∧
                     row_key (assign (columns t) U r) = j
  | Some _ => True
  end.
Proof.
  intros Ht Hcols Hr. destruct (row_ok_key t r Ht Hr) as [rest Heq].
  pose proof (row_ok_length t r Hr) as Hlen.
  assert (∀ v, v = default (VInt (row_key r)) (U !! col) →
            (∃ z, v = VInt z) →
            row_ok t (assign (columns t) U r) = true ∧
            row_key (assign (columns t) U r) = row_key (v :: rest)) as Hhead.
  { intros v Hv [z Hz]. unfold row_ok. rewrite Ht.
    unfold assign at 1. rewrite length_imap, Hlen, Nat.eqb_refl.
    rewrite Heq at 1 2. rewrite Hcols. unfold assign. simpl.
    rewrite <- Hv, Hz. by simpl. }
  destruct (U !! col) as [[|j| |]|] eqn:HU; try done.
  - apply (Hhead (VInt j)); [done|by eexists].
  - rewrite Heq at 3. apply (Hhead (VInt (row_key r))); [done|by eexists].
Qed.

Lemma table_ok_update (c : Conn) (t : table) (U : gmap string value) (key : Z) :
  has_rowid_key t = true →
  table_ok t (rows (view c) t) = true →
  key_rejected c t U key = None →
  table_ok t ((λ r, if key_is key r then assign (columns t) U r else r)
                <$> rows (view c) t) = true.
Proof.
  intros Ht Hok Haccepted.
  assert (∃ col cols, columns t = col :: cols) as (col & cols & Hcols)
    by (destruct t; by eexists _, _).
  apply table_ok_spec in Hok as [Hrows Hkeys]. specialize (Hkeys Ht).
  unfold key_rejected in Haccepted. rewrite Ht, Hcols in Haccepted.
  set (f := λ r : row, if key_is key r then assign (columns t) U r else r).
  set (g := λ k : Z,
         match U !! col with
         | Some (VInt j) => if k =? key then j else k
         | _ => k
         end).
  assert (Forall (λ r, row_ok t (f r) = true ∧ row_key (f r) = g (row_key r))
            (rows (view c) t)) as Hf.
  { apply Forall_forall. intros r Hr.
    assert (row_ok t r = true) as Hrow by (by eapply Forall_forall in Hrows).
    pose proof (assign_row_ok t U r col cols Ht Hcols Hrow) as Hassign.
    pose proof (key_is_row_key t key r Ht Hrow) as Hkey.
    unfold f, g. destruct (key_is key r) eqn:Hmatch.
    - apply proj1 in Hkey. specialize (Hkey eq_refl).
      destruct (U !! col) as [[|j| |]|]; try done.
      by rewrite Hkey, Z.eqb_refl.
    - assert (row_key r ≠ key) as Hne
        by (intros Heq; apply Hkey in Heq; congruence).
      apply Z.eqb_neq in Hne. rewrite Hne.
      by destruct (U !! col) as [[]|]. }
  apply table_ok_spec. split.
  - apply Forall_fmap. eapply Forall_impl; [exact Hf|]. by intros r [? _].
  - intros _.
    assert (row_key <$> (f <$> rows (view c) t)
            = g <$> (row_key <$> rows (view c) t)) as ->.
    { rewrite <- !list_fmap_compose. apply Forall_fmap_ext.
      eapply Forall_impl; [exact Hf|]. by intros r [_ ?]. }
    apply NoDup_fmap_2_strong; [|done].
    intros x y Hx Hy. unfold g.
    destruct (U !! col) as [[|j| |]|]; try done.
    destruct (existsb (key_is j) (rows (view c) t)) eqn:Hexists.
    + destruct (Z.eqb_spec j key) as [->|Hne]; [|done].
      destruct (Z.eqb_spec x key), (Z.eqb_spec y key); congruence.
    + assert (j ∉ row_key <$> rows (view c) t) as Hfresh.
      { intros Hj. apply (existsb_key_is t) in Hj; [congruence|done..]. }
      destruct (Z.eqb_spec x key), (Z.eqb_spec y key); congruence.
Qed.

Lemma keeps_update (t : table) (U : gmap string value) (key : Z) :
  has_rowid_key t = true → keeps_schema (update t U key).
Proof.
  intros Ht c [Hcommitted Hview]. unfold update.
  destruct (set_list t U) as [sets|e]; [|done]. cbv zeta.
  destruct (existsb _ _); [|done].
  destruct (with_rowid t sets) as [sets'|e]; [|done].
  unfold update_rejected.
  destruct (key_rejected c t sets' key) eqn:Hkey; [done|].
  destruct (reference_rejected c t sets'); [done|].
  split; [done|]. cbn [snd]. rewrite view_write.
  apply well_formed_set_rows; [done|].
  apply table_ok_update; [done| |done]. by apply well_formed_table.
Qed.

Lemma detection_values_length (scene_id : Z) (d : detection)
    (vals : list value) :
  detection_values scene_id d = Return vals → length vals = 7%nat.
Proof.
  unfold detection_values, mbind, outcome_bind.
  repeat match goal with
         | |- match ?x with _ => _ end = _ → _ => destruct x; [|done]
         end.
  by intros [= <-].
Qed.

Lemma comprehension_Forall {A B : Type} (f : A → outcome B) (P : B → Prop)
    (l : list A) (ys : list B) :
  (∀ x y, f x = Return y → P y) →
  comprehension f l = Return ys → Forall P ys.
Proof.
  intros Hf. revert ys. induction l as [|x l IH]; simpl; intros ys.
  - by intros [= <-].
  - unfold mbind, outcome_bind.
    destruct (f x) as [y|] eqn:Hy; [|done].
    destruct (comprehension f l) as [ys'|]; [|done].
    intros [= <-]. constructor; [by eapply Hf|by apply IH].
Qed.

Lemma keeps_bind_pure {A B : Type} (o : outcome A) (f : A → Py B) :
  (∀ a, o = Return a → keeps_schema (f a)) → keeps_schema (pure o ≫= f).
Proof.
  intros Hf c Hc. unfold mbind, Py_bind, pure.
  destruct o as [a|e]; [by apply Hf|done].
Qed.

Lemma keeps_add_scene (metadata : gmap string value) :
  keeps_schema (add_scene metadata).
Proof.
  unfold add_scene. apply keeps_bind_pure. intros values Hvalues.
  apply keeps_insert. unfold mbind, outcome_bind in Hvalues.
  repeat match type of Hvalues with
         | match ?x with _ => _ end = _ => destruct x; [|done]
         end.
  by injection Hvalues as <-.
Qed.

Lemma keeps_add_detections (scene_id : Z) (detections : list detection) :
  keeps_schema (add_detections scene_id detections).
Proof.
  unfold add_detections. apply keeps_bind_pure. intros values Hvalues.
  apply keeps_with_conn, keeps_executemany.
  eapply comprehension_Forall; [|done].
  intros d vals Hd. by rewrite (detection_values_length _ _ _ Hd).
Qed.

Lemma keeps_add_scene_description (scene_id : Z)
    (description confidence model_version : value) :
  keeps_schema
    (add_scene_description scene_id description confidence model_version).
Proof.
  apply keeps_with_conn, keeps_bind; [by apply keeps_insert|].
  intros _. apply keeps_ret.
Qed.

Lemma keeps_incremental_update_body (scene : scene_record) :
  keeps_schema (incremental_update_body scene).
Proof.
  unfold incremental_update_body.
  apply keeps_bind; [apply keeps_pure|]. intros metadata.
  apply keeps_bind; [apply keeps_add_scene|]. intros scene_id.
  apply keeps_bind.
  - destruct (rec_detections scene);
      [apply keeps_add_detections|apply keeps_ret].
  - intros _. destruct (rec_description scene); [|apply keeps_ret].
    apply keeps_bind; [apply keeps_pure|]. intros confidence.
    apply keeps_bind; [apply keeps_pure|]. intros model_version.
    apply keeps_add_scene_description.
Qed.

(** Every method that writes keeps the schema invariant, so a store
    opened on a database that satisfies the schema satisfies it after
    any sequence of calls. *)
Lemma writes_keep_schema :
  (∀ metadata, keeps_schema (create_scene metadata)) ∧
  (∀ scene_id detections, keeps_schema (add_detections scene_id detections)) ∧
  (∀ scene_id annotation, keeps_schema (add_annotation scene_id annotation)) ∧
  (∀ scene_ids dataset_type,
     keeps_schema (assign_to_dataset scene_ids dataset_type)) ∧
  (∀ scene_id description confidence model_version,
     keeps_schema
       (add_scene_description scene_id description confidence model_version)) ∧
  (∀ new_scenes, keeps_schema (incremental_update new_scenes)) ∧
  (∀ id U, keeps_schema (update_scene id U)) ∧
  (∀ id U, keeps_schema (update_detection id U)) ∧
  (∀ id U, keeps_schema (update_annotation id U)) ∧
  (∀ id, keeps_schema (delete_scene id)) ∧
  (∀ id, keeps_schema (delete_detection id)) ∧
  (∀ id, keeps_schema (delete_annotation id)).
Proof.
  repeat apply conj.
  - apply keeps_add_scene.
  - apply keeps_add_detections.
  - intros scene_id annotation. unfold add_annotation.
    apply keeps_bind_pure. intros values Hvalues.
    apply keeps_with_conn, keeps_bind; [|intros _; apply keeps_ret].
    apply keeps_insert. unfold mbind, outcome_bind in Hvalues.
    destruct (getitem _ _); [|done]. by injection Hvalues as <-.
  - intros scene_ids dataset_type.
    apply keeps_with_conn, keeps_executemany, Forall_fmap, Forall_forall.
    by intros sid _.
  - apply keeps_add_scene_description.
  - intros new_scenes. apply keeps_with_conn, keeps_for_each.
    apply keeps_incremental_update_body.
  - intros id U. by apply keeps_with_conn, keeps_update.
  - intros id U. by apply keeps_with_conn, keeps_update.
  - intros id U. by apply keeps_with_conn, keeps_update.
  - intros id. apply keeps_with_conn, keeps_delete.
  - intros id. apply keeps_with_conn, keeps_delete.
  - intros id. apply keeps_with_conn, keeps_delete.
Qed.

(** A store opened on a database that satisfies the schema satisfies it
    after every sequence of calls, in what it has committed and in what
    it reads. *)
Lemma reachable_conn_ok (file : Database) (c : Conn) :
  well_formed file = true → reachable file c → conn_ok c.
Proof.
  intros Hfile. induction 1 as [|c k _ IH]; [by apply init_ok|].
  destruct writes_keep_schema
    as (Hcreate & Hdets & Hann & Hassign & Hdesc & Hbatch &
        Hus & Hud & Hua & Hds & Hdd & Hda).
  destruct k; simpl;
    [by apply Hcreate|by apply Hdets|by apply Hann|by apply Hassign|
     by apply Hdesc|by apply Hbatch|by apply Hus|by apply Hud|
     by apply Hua|by apply Hds|by apply Hdd|by apply Hda].
Qed.

(** The reads leave the connection as it is. *)
Lemma reads_keep_connection `{Datetime T} (c : Conn) :
  (∀ id, (get_scene id c).2 = c) ∧
  (∀ id, (get_detection id c).2 = c) ∧
  (∀ id, (get_annotation id c).2 = c) ∧
  (∀ limit, (get_all_scenes limit c).2 = c) ∧
  (∀ id, (get_scene_detections id c).2 = c) ∧
  (∀ start end_ : T, (get_scenes_by_time_range start end_ c).2 = c) ∧
  (∀ label threshold, (get_detections_by_class label threshold c).2 = c) ∧
  (get_training_data c).2 = c.
Proof.
  assert (∀ t key, (read_one t key c).2 = c) as Hone.
  { intros t key. unfold read_one, mbind, Py_bind, select, pure.
    destruct (fetchone _); [|done]. by destruct (_row_to_dict _ _). }
  repeat apply conj; try done.
  - intros id. apply (Hone Scenes).
  - intros id. apply (Hone Detections).
  - intros id. apply (Hone Annotations).
Qed.

(** * Further properties of the methods *)

(** ** Inserts *)

Lemma set_table_get (t : table) (db : Database) :
  set_table t (get_table db t) db = db.
Proof. by destruct t, db. Qed.

Lemma get_set_table_ne (t t' : table) (T : Table) (db : Database) :
  t ≠ t' → get_table (set_table t T db) t' = get_table db t'.
Proof. intros Hne. rewrite get_set_table. by case_decide. Qed.

Lemma max_key_app (l1 l2 : list row) :
  max_key (l1 ++ l2) = Z.max (max_key l1) (max_key l2).
Proof.
  pose proof (max_key_nonneg l2).
  induction l1 as [|[|[] ?] l1 IH]; simpl; lia.
Qed.

Lemma next_key_append (T : Table) (vals : list value) :
  next_key (mkTable (t_rows T ++ [VInt (next_key T) :: vals]) (next_key T))
  = next_key T + 1.
Proof.
  unfold next_key at 1. simpl. rewrite max_key_app. simpl.
  unfold next_key. pose proof (max_key_nonneg (t_rows T)). lia.
Qed.

Lemma parent_exists_set_table (t : table) (T : Table) (db : Database)
    (v : value) :
  t ≠ Scenes → parent_exists (set_table t T db) v = parent_exists db v.
Proof.
  intros Hne. unfold parent_exists. rewrite rows_set_table. by case_decide.
Qed.

(** The row that an INSERT into a table with a key stores, and what the
    engine answers, when the reference of the row is accepted. *)
Lemma insert_keyed (t : table) (v : value) (vals : list value) (c : Conn) :
  has_rowid_key t = true →
  t = Scenes ∨ reference_accepted c v →
  insert t (v :: vals) c =
  (Return (next_key (get_table (view c) t)),
   write (set_table t
            (mkTable (rows (view c) t ++
                      [VInt (next_key (get_table (view c) t)) :: v :: vals])
               (next_key (get_table (view c) t)))
            (view c)) c).
Proof.
  intros Ht Haccepted. unfold insert, new_row. rewrite Ht.
  assert (foreign_keys c &&
          orphan (view c) t
            (VInt (next_key (get_table (view c) t)) :: v :: vals) = false)
    as ->; [|done].
  destruct Haccepted as [->|[Hoff|Hparent]].
  - apply andb_false_r.
  - by rewrite Hoff.
  - unfold orphan. destruct t; try done; simpl; rewrite ?Hparent;
      apply andb_false_r.
Qed.

(** [executemany] on a table with a key, for tuples that all start with
    the same accepted reference: the rows are appended in order under
    consecutive keys, and nothing else changes. *)
Lemma executemany_keyed (t : table) (v : value) (values : list (list value))
    (c : Conn) :
  has_rowid_key t = true → t ≠ Scenes →
  Forall (λ vals, head vals = Some v) values →
  reference_accepted c v →
  ∃ c',
    executemany t values c = (Return (), c') ∧
    committed c' = committed c ∧
    foreign_keys c' = foreign_keys c ∧
    rows (view c') t =
      rows (view c) t ++ keyed (next_key (get_table (view c) t)) values ∧
    ∀ t', t' ≠ t → get_table (view c') t' = get_table (view c) t'.
Proof.
  intros Ht Hchild Hheads. revert c.
  induction Hheads as [|vals values Hhead _ IH]; intros c Haccepted.
  - exists c. by rewrite app_nil_r.
  - destruct vals as [|v' vals]; [done|]. injection Hhead as ->.
    unfold executemany. simpl. unfold mbind at 1, Py_bind at 1.
    unfold mbind at 1, Py_bind at 1.
    rewrite (insert_keyed t v vals c Ht) by by right.
    simpl.
    set (k := next_key (get_table (view c) t)).
    set (c1 := write _ c).
    destruct (IH c1) as (c' & Hrun & Hcommitted & Hfk & Hrows & Hothers).
    { destruct Haccepted as [Hoff|Hparent]; [by left|right].
      unfold c1. rewrite view_write. by rewrite parent_exists_set_table. }
    exists c'. split; [exact Hrun|]. split; [done|]. split; [done|]. split.
    + rewrite Hrows. unfold c1. rewrite view_write, rows_set_table.
      case_decide; [|done]. simpl.
      rewrite get_set_table. case_decide; [|done].
      fold k. rewrite (next_key_append (get_table (view c) t)).
      rewrite <- app_assoc. f_equal. unfold keyed. simpl. fold k.
      rewrite Z.add_0_r. f_equal. apply imap_ext. intros j x _. simpl.
      do 2 f_equal. lia.
    + intros t' Hne. rewrite (Hothers t' Hne). unfold c1.
      rewrite view_write. by apply get_set_table_ne.
Qed.

(** ** Creating a scene *)

Lemma metadata_ok_keys (metadata : gmap string value) :
  metadata_ok metadata = true ↔
  is_Some (metadata !! "timestamp"%string) ∧
  is_Some (metadata !! "camera_id"%string) ∧
  is_Some (metadata !! "media_path"%string).
Proof.
  unfold metadata_ok. rewrite !andb_true_iff, !bool_decide_eq_true. tauto.
Qed.

Lemma add_scene_effect (metadata : gmap string value) (c : Conn) :
  metadata_ok metadata = true →
  add_scene metadata c =
  (Return (next_key (get_table (view c) Scenes)),
   write (set_table Scenes
            (mkTable (rows (view c) Scenes ++
                      [VInt (next_key (get_table (view c) Scenes))
                         :: scene_fields metadata])
               (next_key (get_table (view c) Scenes)))
            (view c)) c).
Proof.
  intros ([ts Hts] & [cam Hcam] & [path Hpath])%metadata_ok_keys.
  unfold add_scene, mbind, Py_bind, pure, getitem, scene_fields, get.
  rewrite Hts, Hcam, Hpath. simpl. by rewrite insert_scenes.
Qed.

Lemma add_scene_returns (metadata : gmap string value) (c c' : Conn) (i : Z) :
  add_scene metadata c = (Return i, c') → metadata_ok metadata = true.
Proof.
  unfold add_scene, mbind, Py_bind, pure, getitem. intros Hrun.
  apply metadata_ok_keys.
  destruct (metadata !! "timestamp"%string); [|done].
  destruct (metadata !! "camera_id"%string); [|done].
  destruct (metadata !! "media_path"%string); [|done].
  by repeat split.
Qed.

(** X1. [create_scene] returns exactly when the metadata has the keys
    ['timestamp'], ['camera_id'] and ['media_path']; otherwise it raises
    the [KeyError] of the first of them that is missing, in that order,
    and leaves the connection as it was. *)
Theorem create_scene_required_keys (metadata : gmap string value) (c : Conn) :
  ((∃ i c', create_scene metadata c = (Return i, c')) ↔
   metadata_ok metadata = true) ∧
  (metadata !! "timestamp"%string = None →
   create_scene metadata c = (Raise (KeyError "timestamp"), c)) ∧
  (is_Some (metadata !! "timestamp"%string) →
   metadata !! "camera_id"%string = None →
   create_scene metadata c = (Raise (KeyError "camera_id"), c)) ∧
  (is_Some (metadata !! "timestamp"%string) →
   is_Some (metadata !! "camera_id"%string) →
   metadata !! "media_path"%string = None →
   create_scene metadata c = (Raise (KeyError "media_path"), c)).
Proof.
  split; [split|].
  - intros (i & c' & Hrun). by eapply add_scene_returns.
  - intros Hok. unfold create_scene. rewrite add_scene_effect by done. eauto.
  - unfold create_scene, add_scene, mbind, Py_bind, pure, getitem.
    split; [by intros ->|]. split.
    + by intros [ts ->] ->.
    + by intros [ts ->] [cam ->] ->.
Qed.

(** X2. A call of [create_scene] that returns appends one row to
    [scenes], made of the returned id and the six fields of the
    metadata (NULL for an optional key that is absent). The id is the
    id of no scene that was there, no other table changes, and nothing
    is committed. *)
Theorem create_scene_appends (metadata : gmap string value) (c c' : Conn)
    (i : Z) :
  create_scene metadata c = (Return i, c') →
  (i ∉ row_key <$> rows (view c) Scenes) ∧
  rows (view c') Scenes =
    rows (view c) Scenes ++ [VInt i :: scene_fields metadata] ∧
  (∀ t, t ≠ Scenes → rows (view c') t = rows (view c) t) ∧
  committed c' = committed c.
Proof.
  intros Hrun. pose proof (add_scene_returns _ _ _ _ Hrun) as Hok.
  unfold create_scene in Hrun. rewrite add_scene_effect in Hrun by done.
  injection Hrun as <- <-. split; [|split; [|split]].
  - intros (r & Hkey & Hr)%list_elem_of_fmap.
    pose proof (max_key_bound _ _ Hr) as Hbound.
    unfold next_key, rows in *. simpl in *. lia.
  - done.
  - intros t Hne. by destruct t.
  - done.
Qed.

(** X3. A scene that [create_scene] added is lost when the store is
    closed before another call has committed it: on a connection with
    no open transaction, [create_scene] followed by [close] leaves the
    connection as it was before the scene was created. *)
Theorem create_scene_lost_on_close (metadata : gmap string value)
    (c c1 : Conn) (i : Z) :
  pending c = None →
  create_scene metadata c = (Return i, c1) →
  close c1 = (Return (), c).
Proof.
  intros Hidle Hrun. pose proof (add_scene_returns _ _ _ _ Hrun) as Hok.
  unfold create_scene in Hrun. rewrite add_scene_effect in Hrun by done.
  injection Hrun as _ <-. unfold close. f_equal.
  destruct c. simpl in *. by subst.
Qed.

(** ** Detections *)

Lemma detection_values_ok (scene_id : Z) (d : detection) :
  detection_ok d = true →
  detection_values scene_id d = Return (detection_fields scene_id d).
Proof.
  unfold detection_ok, detection_values, detection_fields.
  destruct d as [[class|] [confidence|] [bbox|]]; try done. simpl.
  do 4 (destruct bbox as [|? bbox]; [done|]). done.
Qed.

Lemma detection_values_bad (scene_id : Z) (d : detection) :
  detection_ok d = false →
  ∃ e, detection_values scene_id d = Raise e ∧ e ∈ marshalling_errors.
Proof.
  unfold detection_ok, detection_values, marshalling_errors.
  destruct d as [[class|] [confidence|] [bbox|]]; simpl;
    try (intros _; eexists; split; [done|set_solver]).
  do 4 (destruct bbox as [|? bbox];
        [intros _; eexists; split; [done|set_solver]|]).
  done.
Qed.

Lemma comprehension_ok (scene_id : Z) (detections : list detection) :
  Forall (λ d, detection_ok d = true) detections →
  comprehension (detection_values scene_id) detections =
  Return (detection_fields scene_id <$> detections).
Proof.
  induction 1 as [|d detections Hd _ IH]; [done|]. simpl.
  by rewrite detection_values_ok, IH.
Qed.

Lemma comprehension_bad (scene_id : Z) (detections : list detection) :
  Exists (λ d, detection_ok d = false) detections →
  ∃ e, comprehension (detection_values scene_id) detections = Raise e ∧
       e ∈ marshalling_errors.
Proof.
  induction detections as [|d detections IH]; [by intros ?%Exists_nil|].
  intros Hbad. simpl.
  destruct (detection_ok d) eqn:Hd.
  - rewrite detection_values_ok by done.
    apply Exists_cons in Hbad as [Hbad|Hbad]; [congruence|].
    destruct (IH Hbad) as (e & -> & He). by exists e.
  - destruct (detection_values_bad scene_id d Hd) as (e & -> & He).
    by exists e.
Qed.

(** X4. When one detection of the list lacks ['class'], ['confidence']
    or ['bbox'], or has a box of fewer than four items, [add_detections]
    raises the [KeyError] or [IndexError] and writes nothing, not even
    the well-formed detections before it; the connection, with the
    transaction that may be open on it, is left as it was. *)
Theorem add_detections_malformed (scene_id : Z) (detections : list detection)
    (c : Conn) :
  Exists (λ d, detection_ok d = false) detections →
  ∃ e, add_detections scene_id detections c = (Raise e, c) ∧
       e ∈ marshalling_errors.
Proof.
  intros Hbad. destruct (comprehension_bad scene_id _ Hbad) as (e & He & Hin).
  exists e. split; [|done].
  unfold add_detections, mbind, Py_bind, pure. by rewrite He.
Qed.

Lemma add_detections_effect (scene_id : Z) (detections : list detection)
    (c : Conn) :
  Forall (λ d, detection_ok d = true) detections →
  reference_accepted c (VInt scene_id) →
  ∃ c',
    add_detections scene_id detections c = (Return (), c') ∧
    pending c' = None ∧
    foreign_keys c' = foreign_keys c ∧
    rows (view c') Detections =
      rows (view c) Detections ++
      keyed (next_key (get_table (view c) Detections))
        (detection_fields scene_id <$> detections) ∧
    ∀ t, t ≠ Detections → get_table (view c') t = get_table (view c) t.
Proof.
  intros Hok Haccepted.
  destruct (executemany_keyed Detections (VInt scene_id)
              (detection_fields scene_id <$> detections) c)
    as (c1 & Hrun & Hcommitted & Hfk & Hrows & Hothers); try done.
  { apply Forall_fmap, Forall_forall. by intros d _. }
  exists (commit c1).
  unfold add_detections, mbind, Py_bind, pure.
  rewrite comprehension_ok by done. unfold with_conn. rewrite Hrun.
  by rewrite view_commit.
Qed.

Lemma keyed_rows_ok (t : table) (n : Z) (values : list (list value)) :
  has_rowid_key t = true →
  Forall (λ vals, S (length vals) = length (columns t)) values →
  Forall (λ r, row_ok t r = true) (keyed n values).
Proof.
  intros Ht Hvalues. apply Forall_forall.
  intros r (k & vals & -> & Hvals)%elem_of_lookup_imap.
  eapply Forall_lookup_1 in Hvalues; [|done].
  unfold row_ok. rewrite Ht.
  apply andb_true_iff. split; [apply Nat.eqb_eq; simpl; lia|done].
Qed.

(** X5. For well-formed detections and a scene id that the engine
    accepts, [add_detections] appends one row per detection, in the
    order of the list and under consecutive new ids, commits, and
    changes no other table; [get_scene_detections] then returns the
    detections that the scene had, followed by the new ones. *)
Theorem add_detections_stored (scene_id : Z) (detections : list detection)
    (c : Conn) :
  well_formed (view c) = true →
  Forall (λ d, detection_ok d = true) detections →
  reference_accepted c (VInt scene_id) →
  ∃ c' n,
    add_detections scene_id detections c = (Return (), c') ∧
    pending c' = None ∧
    rows (view c') Detections =
      rows (view c) Detections ++
      keyed n (detection_fields scene_id <$> detections) ∧
    (∀ t, t ≠ Detections → rows (view c') t = rows (view c) t) ∧
    get_scene_detections scene_id c' =
      (Return (mapping_of Detections <$>
               (filter (λ r, refers 1 scene_id r) (rows (view c) Detections) ++
                keyed n (detection_fields scene_id <$> detections))), c').
Proof.
  intros Hwf Hok Haccepted.
  destruct (add_detections_effect scene_id detections c Hok Haccepted)
    as (c' & Hrun & Hidle & _ & Hrows & Hothers).
  exists c', (next_key (get_table (view c) Detections)).
  split; [done|]. split; [done|]. split; [done|]. split.
  { intros t Hne. unfold rows. by rewrite Hothers. }
  unfold get_scene_detections, mbind, Py_bind, select, rows_to_dicts, pure.
  rewrite Hrows, filter_app.
  rewrite (filter_all _ (keyed _ _)).
  - rewrite comprehension_dicts; [done|]. apply Forall_app. split.
    + by apply rows_ok_filter.
    + apply keyed_rows_ok; [done|]. apply Forall_fmap, Forall_forall.
      by intros d _.
  - apply Forall_forall.
    intros r (k & vals & -> & Hvals)%elem_of_lookup_imap.
    apply list_lookup_fmap_Some in Hvals as (d & -> & _).
    unfold refers. simpl. by rewrite sql_eq_int, Z.eqb_refl.
Qed.

(** X6. [add_detections] for the scene that [create_scene] has just
    returned is accepted whatever the connection enforces, and it
    commits the scene together with the detections: the scene row is in
    the committed database afterwards. *)
Theorem create_scene_committed_by_add_detections
    (metadata : gmap string value) (detections : list detection)
    (c c1 : Conn) (i : Z) :
  create_scene metadata c = (Return i, c1) →
  Forall (λ d, detection_ok d = true) detections →
  ∃ c2,
    add_detections i detections c1 = (Return (), c2) ∧
    pending c2 = None ∧
    (VInt i :: scene_fields metadata) ∈ rows (committed c2) Scenes.
Proof.
  intros Hrun Hok. pose proof (add_scene_returns _ _ _ _ Hrun) as Hmeta.
  unfold create_scene in Hrun. rewrite add_scene_effect in Hrun by done.
  apply pair_equal_spec in Hrun as [[= <-] <-].
  set (c1 := write _ c).
  destruct (add_detections_effect (next_key (get_table (view c) Scenes))
              detections c1 Hok)
    as (c2 & Hadd & Hidle & _ & _ & Hothers).
  { right. unfold parent_exists, c1. rewrite view_write, rows_set_table.
    case_decide; [|done]. simpl. rewrite existsb_app. simpl.
    by rewrite sql_eq_int, Z.eqb_refl, orb_true_r. }
  exists c2. split; [done|]. split; [done|].
  assert (committed c2 = view c2) as ->
    by (destruct c2; simpl in *; by subst).
  unfold rows. rewrite (Hothers Scenes) by done.
  unfold c1. rewrite view_write, get_set_table. case_decide; [|done].
  simpl. apply elem_of_app. right. left.
Qed.

(** ** Reading a record by its id *)

Lemma filter_unique_key (t : table) (l : list row) (r : row) :
  has_rowid_key t = true → Forall (λ r, row_ok t r = true) l →
  NoDup (row_key <$> l) → r ∈ l →
  filter (λ r', key_is (row_key r) r') l = [r].
Proof.
  intros Ht Hok Hkeys Hin.
  induction l as [|r' l IH]; [by apply elem_of_nil in Hin|].
  apply Forall_cons in Hok as [Hr' Hok].
  rewrite fmap_cons in Hkeys. apply NoDup_cons in Hkeys as [Hfresh Hkeys].
  apply elem_of_cons in Hin as [->|Hin].
  - rewrite filter_cons_True
      by (apply Is_true_true; by apply (key_is_row_key t)).
    f_equal. apply filter_none, Forall_forall.
    intros r Hr Hkey%Is_true_true.
    apply (key_is_row_key t) in Hkey;
      [|done|by eapply Forall_forall in Hok].
    apply Hfresh. rewrite <- Hkey. by apply list_elem_of_fmap_2.
  - rewrite filter_cons_False; [by apply IH|].
    intros Hkey%Is_true_true. apply (key_is_row_key t) in Hkey; [|done..].
    apply Hfresh. rewrite Hkey. by apply list_elem_of_fmap_2.
Qed.

Lemma read_one_found (t : table) (r : row) (c : Conn) :
  has_rowid_key t = true → well_formed (view c) = true →
  r ∈ rows (view c) t →
  read_one t (row_key r) c = (Return (Some (mapping_of t r)), c).
Proof.
  intros Ht Hwf Hin.
  pose proof (well_formed_table _ t Hwf) as [Hok Hkeys]%table_ok_spec.
  unfold read_one, mbind, Py_bind, select, fetchone, pure.
  rewrite (filter_unique_key t) by auto. simpl.
  rewrite row_to_dict_columns; [done|].
  apply row_ok_length. by eapply Forall_forall in Hok.
Qed.

Lemma read_one_missing (t : table) (id : Z) (c : Conn) :
  existsb (key_is id) (rows (view c) t) = false →
  read_one t id c = (Return None, c).
Proof.
  intros Hnone. unfold read_one, mbind, Py_bind, select, fetchone.
  rewrite filter_none; [done|].
  apply Forall_forall. intros r Hr Hkey%Is_true_true.
  assert (existsb (key_is id) (rows (view c) t) = true); [|congruence].
  apply existsb_exists. exists r. split; [by apply list_elem_of_In|done].
Qed.

(** X7. On a database that satisfies the schema, [get_scene],
    [get_detection] and [get_annotation] return the dictionary of the
    row that has the id, and [None], without raising, when no row has
    it. *)
Theorem get_by_id (c : Conn) (id : Z) :
  well_formed (view c) = true →
  (∀ r, r ∈ rows (view c) Scenes → row_key r = id →
        get_scene id c = (Return (Some (mapping_of Scenes r)), c)) ∧
  (id ∉ row_key <$> rows (view c) Scenes →
   get_scene id c = (Return None, c)) ∧
  (∀ r, r ∈ rows (view c) Detections → row_key r = id →
        get_detection id c = (Return (Some (mapping_of Detections r)), c)) ∧
  (id ∉ row_key <$> rows (view c) Detections →
   get_detection id c = (Return None, c)) ∧
  (∀ r, r ∈ rows (view c) Annotations → row_key r = id →
        get_annotation id c =
          (Return (Some (mapping_of Annotations r)), c)) ∧
  (id ∉ row_key <$> rows (view c) Annotations →
   get_annotation id c = (Return None, c)).
Proof.
  intros Hwf.
  assert (∀ t, has_rowid_key t = true →
            (∀ r, r ∈ rows (view c) t → row_key r = id →
                  read_one t id c = (Return (Some (mapping_of t r)), c)) ∧
            (id ∉ row_key <$> rows (view c) t →
             read_one t id c = (Return None, c))) as Hone.
  { intros t Ht. split.
    - intros r Hr <-. by apply read_one_found.
    - intros Hnone. apply read_one_missing.
      destruct (existsb _ _) eqn:Hex; [|done].
      apply (existsb_key_is t) in Hex; [done..|].
      apply Forall_forall. intros r Hr.
      eapply table_ok_row; [by apply well_formed_table|done]. }
  destruct (Hone Scenes eq_refl) as [? ?].
  destruct (Hone Detections eq_refl) as [? ?].
  destruct (Hone Annotations eq_refl) as [? ?].
  by repeat apply conj.
Qed.

(** ** Annotations *)

Lemma read_one_new_row (t : table) (vals : list value) (c c' : Conn) :
  has_rowid_key t = true → well_formed (view c) = true →
  S (length vals) = length (columns t) →
  rows (view c') t =
    rows (view c) t ++ [VInt (next_key (get_table (view c) t)) :: vals] →
  read_one t (next_key (get_table (view c) t)) c' =
  (Return (Some (mapping_of t
                   (VInt (next_key (get_table (view c) t)) :: vals))), c').
Proof.
  intros Ht Hwf Hlen Hrows.
  unfold read_one, mbind, Py_bind, select, fetchone, pure.
  rewrite Hrows, filter_app. unfold rows at 1.
  rewrite (no_row_has_next_key t (get_table (view c) t));
    [|done|by apply well_formed_table].
  rewrite filter_cons_True by (by rewrite key_is_int, Z.eqb_refl).
  simpl. rewrite row_to_dict_columns; [done|]. simpl. lia.
Qed.

(** X8. For an annotation with the key ['label_type'] and a scene id
    that the engine accepts, [add_annotation] stores one row under a
    new id and commits it; [get_annotation] of that id returns the
    scene id and the eight fields of the annotation, NULL for each
    optional key that is absent. *)
Theorem add_annotation_get_annotation (scene_id : Z)
    (annotation : gmap string value) (c : Conn) :
  well_formed (view c) = true →
  is_Some (annotation !! "label_type"%string) →
  reference_accepted c (VInt scene_id) →
  ∃ i c',
    add_annotation scene_id annotation c = (Return (), c') ∧
    pending c' = None ∧
    (i ∉ row_key <$> rows (view c) Annotations) ∧
    get_annotation i c' =
      (Return (Some (mapping_of Annotations
                       (VInt i :: annotation_fields scene_id annotation))),
       c').
Proof.
  intros Hwf [label_type Hlabel] Haccepted.
  exists (next_key (get_table (view c) Annotations)). eexists.
  split; [|split; [|split]].
  - unfold add_annotation, mbind, Py_bind, pure, getitem.
    rewrite Hlabel. simpl. unfold with_conn, mbind, Py_bind.
    rewrite (insert_keyed Annotations) by (by try right). done.
  - done.
  - intros (r & Hkey & Hr)%list_elem_of_fmap.
    pose proof (max_key_bound _ _ Hr) as Hbound.
    unfold next_key, rows in *. simpl in *. lia.
  - change (get_annotation ?i) with (read_one Annotations i).
    apply (read_one_new_row Annotations); [done..|].
    rewrite view_commit, view_write, rows_set_table. case_decide; [|done].
    unfold annotation_fields, get. by rewrite Hlabel.
Qed.

(** X9. Without the key ['label_type'], [add_annotation] raises
    [KeyError] before it reaches the database: the connection is left
    as it was. *)
Theorem add_annotation_missing_label_type (scene_id : Z)
    (annotation : gmap string value) (c : Conn) :
  annotation !! "label_type"%string = None →
  add_annotation scene_id annotation c = (Raise (KeyError "label_type"), c).
Proof.
  intros Hnone. unfold add_annotation, mbind, Py_bind, pure, getitem.
  by rewrite Hnone.
Qed.

(** ** Descriptions and dataset assignments *)

Lemma parent_exists_scene (db : Database) (s : row) :
  row_ok Scenes s = true → s ∈ rows db Scenes →
  parent_exists db (VInt (row_key s)) = true.
Proof.
  intros Hs Hin. destruct (row_ok_key Scenes s eq_refl Hs) as [rest Heq].
  unfold parent_exists. simpl. apply existsb_exists.
  exists s. split; [by apply list_elem_of_In|].
  rewrite Heq at 1. by rewrite sql_eq_int, Z.eqb_refl.
Qed.

Lemma reference_to_scene (c : Conn) (s : row) :
  well_formed (view c) = true → s ∈ rows (view c) Scenes →
  reference_accepted c (VInt (row_key s)).
Proof.
  intros Hwf Hin. right. apply parent_exists_scene; [|done].
  eapply table_ok_row; [by apply well_formed_table|done].
Qed.

(** X10. For a scene that is in the store, [add_scene_description]
    stores one row under a new id, commits it and changes no other
    table; once the scene has a 'train' assignment, [get_training_data]
    returns the scene's columns followed by the description that was
    given. *)
Theorem add_scene_description_in_training_data (s : row)
    (description confidence model_version : value) (c : Conn) :
  well_formed (view c) = true →
  s ∈ rows (view c) Scenes →
  ∃ k c',
    add_scene_description (row_key s) description confidence model_version c
      = (Return (), c') ∧
    pending c' = None ∧
    (k ∉ row_key <$> rows (view c) SceneDescriptions) ∧
    rows (view c') SceneDescriptions =
      rows (view c) SceneDescriptions ++
      [[VInt k; VInt (row_key s); description; confidence; model_version]] ∧
    (∀ t, t ≠ SceneDescriptions → rows (view c') t = rows (view c) t) ∧
    (train_assignments (view c) (row_key s) ≠ [] →
     ∃ found, get_training_data c' = (Return found, c') ∧
              Tuple (s ++ [description]) ∈ found).
Proof.
  intros Hwf Hin.
  pose proof (table_ok_row _ _ _ (well_formed_table _ Scenes Hwf) Hin) as Hs.
  destruct (row_ok_key Scenes s eq_refl Hs) as [rest Heq].
  exists (next_key (get_table (view c) SceneDescriptions)). eexists.
  split; [|split; [|split; [|split; [|split]]]].
  - unfold add_scene_description, with_conn, mbind, Py_bind.
    rewrite (insert_keyed SceneDescriptions);
      [done|done|right; by apply reference_to_scene].
  - done.
  - intros (r & Hkey & Hr)%list_elem_of_fmap.
    pose proof (max_key_bound _ _ Hr) as Hbound.
    unfold next_key, rows in *. simpl in *. lia.
  - by rewrite view_commit, view_write, rows_set_table.
  - intros t Ht. rewrite view_commit, view_write, rows_set_table.
    by case_decide.
  - intros Hassigned. eexists. split; [done|].
    unfold fetchall. apply list_elem_of_fmap_2.
    rewrite view_commit, view_write.
    set (db' := set_table _ _ _).
    destruct (train_assignments (view c) (row_key s)) as [|a l] eqn:Ha;
      [done|].
    assert (a ∈ train_assignments (view c) (row_key s)) as Hmem
      by (rewrite Ha; left).
    unfold training_rows. apply list_elem_of_bind. exists s. split; [|done].
    apply list_elem_of_bind. exists a. split.
    + unfold described, db'. rewrite rows_set_table. case_decide; [|done].
      cbn [t_rows].
      assert (sql_eq (column 0 s) (VInt (row_key s)) = true) as Hsame.
      { rewrite Heq at 1. unfold column. simpl.
        by rewrite sql_eq_int, Z.eqb_refl. }
      rewrite !filter_app.
      rewrite !(filter_cons_True _ [VInt _; VInt (row_key s); _; _; _])
        by (by apply Is_true_true).
      rewrite !filter_nil.
      destruct (filter _ (rows (view c) SceneDescriptions)) as [|d ds].
      * simpl. left.
      * change (map ?f ?l) with (f <$> l). rewrite fmap_app.
        apply elem_of_app. right. simpl. left.
    + unfold db'. rewrite rows_set_table. case_decide; [done|].
      assert (column 0 s = VInt (row_key s)) as -> by (by rewrite Heq at 1).
      exact Hmem.
Qed.

Lemma executemany_datasets (values : list (list value)) (c : Conn) :
  Forall (λ vals, ∃ v, head vals = Some v ∧ reference_accepted c v) values →
  ∃ c',
    executemany Datasets values c = (Return (), c') ∧
    committed c' = committed c ∧
    rows (view c') Datasets = rows (view c) Datasets ++ values ∧
    ∀ t, t ≠ Datasets → get_table (view c') t = get_table (view c) t.
Proof.
  revert c. induction values as [|vals values IH]; intros c Hvalues.
  - exists c. by rewrite app_nil_r.
  - apply Forall_cons in Hvalues as [(v & Hhead & Haccepted) Hvalues].
    destruct vals as [|v' vals]; [done|]. injection Hhead as ->.
    unfold executemany. simpl. unfold mbind at 1, Py_bind at 1.
    unfold mbind at 1, Py_bind at 1.
    assert (insert Datasets (v :: vals) c =
            (Return (t_seq (get_table (view c) Datasets) + 1),
             write (set_table Datasets
                      (mkTable (rows (view c) Datasets ++ [v :: vals])
                         (t_seq (get_table (view c) Datasets) + 1))
                      (view c)) c)) as ->.
    { unfold insert, new_row, orphan. simpl.
      destruct Haccepted as [Hoff|Hparent]; [by rewrite Hoff|]. rewrite Hparent.
      by rewrite andb_false_r. }
    cbv beta iota. unfold mret at 1, Py_ret at 1. cbv beta iota.
    set (c1 := write _ c).
    destruct (IH c1) as (c' & Hrun & Hcommitted & Hrows & Hothers).
    { eapply Forall_impl; [exact Hvalues|]. simpl.
      intros vals' (v' & Hhead & [Hoff|Hparent]); exists v';
        (split; [done|]); [by left|right].
      unfold c1. rewrite view_write. by rewrite parent_exists_set_table. }
    exists c'. split; [exact Hrun|]. split; [done|]. split.
    + rewrite Hrows. unfold c1. rewrite view_write, rows_set_table.
      case_decide; [|done]. simpl. by rewrite <- app_assoc.
    + intros t Hne. rewrite (Hothers t Hne). unfold c1.
      rewrite view_write. by apply get_set_table_ne.
Qed.

(** X11. When every id is accepted as a reference, [assign_to_dataset]
    appends one row [(id, dataset_type)] per id, in the order of the
    list and repeated as often as the list repeats it, commits, and
    changes no other table. *)
Theorem assign_to_dataset_appends (scene_ids : list Z) (dataset_type : string)
    (c : Conn) :
  Forall (λ sid, reference_accepted c (VInt sid)) scene_ids →
  ∃ c',
    assign_to_dataset scene_ids dataset_type c = (Return (), c') ∧
    pending c' = None ∧
    rows (view c') Datasets =
      rows (view c) Datasets ++
      ((λ sid, [VInt sid; VText dataset_type]) <$> scene_ids) ∧
    ∀ t, t ≠ Datasets → rows (view c') t = rows (view c) t.
Proof.
  intros Hids.
  destruct (executemany_datasets
              ((λ sid, [VInt sid; VText dataset_type]) <$> scene_ids) c)
    as (c1 & Hrun & Hcommitted & Hrows & Hothers).
  { apply Forall_fmap. eapply Forall_impl; [exact Hids|]. simpl.
    intros sid Hsid. by exists (VInt sid). }
  exists (commit c1). unfold assign_to_dataset, with_conn.
  change (map ?f ?l) with (f <$> l). rewrite Hrun.
  split; [done|]. split; [done|]. rewrite view_commit. split; [done|].
  intros t Ht. unfold rows. by rewrite Hothers.
Qed.

(** ** Updates *)

Lemma rows_ok (db : Database) (t : table) :
  well_formed db = true → Forall (λ r, row_ok t r = true) (rows db t).
Proof.
  intros Hwf. apply Forall_forall. intros r Hr.
  eapply table_ok_row; [by apply well_formed_table|done].
Qed.

Lemma update_ok_accepted (c : Conn) (t : table) (U : gmap string value)
    (key : Z) :
  has_rowid_key t = true → update_ok c t U →
  update_rejected c t U key = None.
Proof.
  intros Ht (_ & _ & Hkey & Href).
  unfold update_rejected, key_rejected, reference_rejected. rewrite Ht.
  assert (match columns t with col :: _ => U !! col | [] => None end = None)
    as ->.
  { destruct (columns t) as [|col cols]; [done|]. by apply Hkey. }
  destruct (scene_ref t); [|done].
  destruct (U !! "scene_id"%string) as [v|]; [|done].
  destruct (Href v eq_refl) as [Hoff|Hparent]; [by rewrite Hoff|].
  rewrite Hparent. by rewrite andb_false_r.
Qed.

Lemma update_row (c : Conn) (t : table) (U : gmap string value) (pos : nat)
    (r : row) :
  has_rowid_key t = true → well_formed (view c) = true →
  rows (view c) t !! pos = Some r → update_ok c t U →
  ∃ c',
    with_conn (update t U (row_key r)) c = (Return (), c') ∧
    pending c' = None ∧
    row_updated t U pos r (view c) (view c').
Proof.
  intros Ht Hwf Hpos Hok.
  pose proof (rows_ok _ t Hwf) as Hrows.
  pose proof (update_ok_accepted c t U (row_key r) Ht Hok) as Haccepted.
  destruct Hok as (Hne & Hcols & Huntouched & _).
  exists (commit (write (set_rows t
                   (<[pos := assign (columns t) U r]> (rows (view c) t))
                   (view c)) c)).
  split; [|split; [done|]].
  - unfold with_conn, update.
    rewrite set_list_plain by done. cbv zeta.
    rewrite (proj2 (existsb_key_is t _ _ Ht Hrows))
      by (apply list_elem_of_fmap_2; by eapply list_elem_of_lookup_2).
    rewrite with_rowid_plain
      by (intros col v Hcol Hv; by rewrite (Huntouched col Hcol) in Hv).
    rewrite Haccepted.
    rewrite (update_one_row t _ pos r); try done.
    apply (table_ok_keys t); [done|]. by apply well_formed_table.
  - exists (assign (columns t) U r). split; [|split; [|split]].
    + rewrite view_commit, view_write, rows_set_rows. by case_decide.
    + unfold assign. by rewrite length_imap.
    + intros j col Hcol. apply assign_lookup; [|done].
      apply row_ok_length. eapply Forall_forall in Hrows; [done|].
      by eapply list_elem_of_lookup_2.
    + intros t' Hother. rewrite view_commit, view_write, rows_set_rows.
      by case_decide.
Qed.

(** X12. For a detection (an annotation) that exists and a mapping
    that is not empty, names columns of the table only, leaves the key
    column alone and sets [scene_id], if at all, to an accepted
    reference, [update_detection] ([update_annotation]) sets on that row
    the columns that the mapping names, keeps its other columns, the
    other rows and the other tables, and commits. *)
Theorem update_detection_annotation_frame (c : Conn) (U : gmap string value)
    (pos : nat) (r : row) :
  well_formed (view c) = true →
  (rows (view c) Detections !! pos = Some r → update_ok c Detections U →
   ∃ c', update_detection (row_key r) U c = (Return (), c') ∧
         pending c' = None ∧
         row_updated Detections U pos r (view c) (view c')) ∧
  (rows (view c) Annotations !! pos = Some r → update_ok c Annotations U →
   ∃ c', update_annotation (row_key r) U c = (Return (), c') ∧
         pending c' = None ∧
         row_updated Annotations U pos r (view c) (view c')).
Proof.
  intros Hwf. split; intros Hpos Hok.
  - by apply (update_row c Detections).
  - by apply (update_row c Annotations).
Qed.

Lemma update_absent (c : Conn) (t : table) (U : gmap string value) (id : Z) :
  has_rowid_key t = true → well_formed (view c) = true →
  U ≠ ∅ → (∀ k v, U !! k = Some v → k ∈ columns t) →
  id ∉ row_key <$> rows (view c) t →
  with_conn (update t U id) c = (Return (), commit c).
Proof.
  intros Ht Hwf Hne Hcols Habsent. unfold with_conn, update.
  rewrite set_list_plain by done. cbv zeta.
  destruct (existsb _ _) eqn:Hex; [|done].
  apply (existsb_key_is t) in Hex; [done|done|by apply rows_ok].
Qed.

(** X13. An update of an id that no row has is no error: for a mapping
    that is not empty and names columns of the table only,
    [update_scene], [update_detection] and [update_annotation] return
    and change no row. They commit what was pending on the
    connection. *)
Theorem update_of_absent_id (c : Conn) (id : Z) (U : gmap string value) :
  well_formed (view c) = true → U ≠ ∅ →
  ((∀ k v, U !! k = Some v → k ∈ columns Scenes) →
   id ∉ row_key <$> rows (view c) Scenes →
   update_scene id U c = (Return (), commit c)) ∧
  ((∀ k v, U !! k = Some v → k ∈ columns Detections) →
   id ∉ row_key <$> rows (view c) Detections →
   update_detection id U c = (Return (), commit c)) ∧
  ((∀ k v, U !! k = Some v → k ∈ columns Annotations) →
   id ∉ row_key <$> rows (view c) Annotations →
   update_annotation id U c = (Return (), commit c)).
Proof.
  intros Hwf Hne. repeat split; intros Hcols Habsent.
  - by apply (update_absent c Scenes).
  - by apply (update_absent c Detections).
  - by apply (update_absent c Annotations).
Qed.

Lemma names_no_column_None (t : table) (k : string) :
  names_no_column t k → names_column t k = None.
Proof.
  intros [Hcols Halias]. unfold names_column.
  rewrite filter_none by (apply Forall_forall; intros col Hcol; by apply Hcols).
  by rewrite bool_decide_eq_false_2, andb_false_r.
Qed.

Lemma update_unknown (c : Conn) (t : table) (U : gmap string value) (id : Z)
    (k : string) :
  is_Some (U !! k) → map_Forall (λ k _, word k = true) U →
  names_no_column t k →
  with_conn (update t U id) c =
  (Raise (OperationalError "no such column"), rollback c).
Proof.
  intros [v Hk] Hwords Hunknown%names_no_column_None.
  unfold with_conn, update, set_list.
  rewrite decide_False by (intros Hempty; by rewrite Hempty in Hk).
  rewrite bool_decide_eq_true_2 by done. simpl negb. cbv iota.
  rewrite bool_decide_eq_false_2; [done|].
  intros Hall. destruct (Hall k v Hk) as [col Hcol]. congruence.
Qed.

(** X14. When the keys of a mapping are words (letters, digits and
    underscores) and one of them names no column of the table, in no
    letter case and not as an alias of the row id, [update_scene],
    [update_detection] and [update_annotation] raise
    [OperationalError], whatever the id, and the open transaction is
    rolled back. *)
Theorem update_unknown_column (c : Conn) (id : Z) (U : gmap string value)
    (k : string) :
  is_Some (U !! k) → map_Forall (λ k _, word k = true) U →
  (names_no_column Scenes k →
   ∃ msg, update_scene id U c = (Raise (OperationalError msg), rollback c)) ∧
  (names_no_column Detections k →
   ∃ msg, update_detection id U c =
            (Raise (OperationalError msg), rollback c)) ∧
  (names_no_column Annotations k →
   ∃ msg, update_annotation id U c =
            (Raise (OperationalError msg), rollback c)).
Proof.
  intros Hk Hwords.
  repeat split; intros Hunknown; eexists; by eapply update_unknown.
Qed.

(** ** Deletes *)

Lemma filter_other_keys (t : table) (l : list row) (id : Z) :
  has_rowid_key t = true → Forall (λ r, row_ok t r = true) l →
  filter (λ r, negb (key_is id r)) l = filter (λ r, row_key r ≠ id) l.
Proof.
  intros Ht. induction 1 as [|r l Hr _ IH]; [done|].
  pose proof (key_is_row_key t id r Ht Hr) as Hkey.
  destruct (decide (row_key r = id)) as [Heq|Hne].
  - rewrite (filter_cons_False (λ r, negb (key_is id r))).
    2:{ rewrite (proj2 Hkey Heq). by intros []. }
    rewrite (filter_cons_False (λ r, row_key r ≠ id)); [done|]. by intros ?.
  - rewrite (filter_cons_True (λ r, negb (key_is id r))).
    2:{ destruct (key_is id r); [|done]. by destruct Hne, Hkey as [-> _]. }
    rewrite (filter_cons_True (λ r, row_key r ≠ id)); [by rewrite IH|done].
Qed.

Lemma read_one_deleted (t : table) (id : Z) (c : Conn) :
  rows (view c) t ⊆ filter (λ r, negb (key_is id r)) (rows (view c) t) →
  read_one t id c = (Return None, c).
Proof.
  intros Hsub. apply read_one_missing.
  destruct (existsb _ _) eqn:Hex; [|done].
  apply existsb_exists in Hex as (r & Hr%list_elem_of_In & Hkey).
  apply Hsub, list_elem_of_filter in Hr as [Hnot _].
  by rewrite Hkey in Hnot.
Qed.

Lemma delete_row (c : Conn) (t : table) (id : Z) :
  has_rowid_key t = true → well_formed (view c) = true →
  t ≠ Scenes ∨ foreign_keys c = false →
  ∃ c',
    with_conn (delete t id) c = (Return (), c') ∧
    pending c' = None ∧
    rows (view c') t = filter (λ r, row_key r ≠ id) (rows (view c) t) ∧
    (∀ t', t' ≠ t → rows (view c') t' = rows (view c) t') ∧
    read_one t id c' = (Return None, c').
Proof.
  intros Ht Hwf Hplain.
  exists (commit (write (set_rows t
                   (filter (λ r, negb (key_is id r)) (rows (view c) t))
                   (view c)) c)).
  assert (foreign_keys c && bool_decide (t = Scenes) &&
          existsb (key_is id) (rows (view c) t) = false) as Hcascade.
  { destruct Hplain as [Hne| ->]; [|done].
    by rewrite bool_decide_eq_false_2, andb_false_r. }
  split; [|split; [done|split; [|split]]].
  - unfold with_conn, delete. by rewrite Hcascade.
  - rewrite view_commit, view_write, rows_set_rows.
    rewrite decide_True by done.
    apply (filter_other_keys t); [done|by apply rows_ok].
  - intros t' Hne. rewrite view_commit, view_write, rows_set_rows.
    rewrite decide_False; [done|]. intros Heq. by apply Hne.
  - apply read_one_deleted.
    rewrite view_commit, view_write, rows_set_rows.
    rewrite decide_True by done.
    intros r Hr. apply list_elem_of_filter. split; [|done].
    by apply list_elem_of_filter in Hr as [Hnot _].
Qed.

(** X15. [delete_detection] ([delete_annotation]) removes the row with
    the id and no other: the other rows of the table stay in their
    order, the other tables are untouched, the change is committed and
    [get_detection] ([get_annotation]) of the id then returns [None].
    An id that no row has is no error. *)
Theorem delete_detection_annotation (c : Conn) (id : Z) :
  well_formed (view c) = true →
  (∃ c',
     delete_detection id c = (Return (), c') ∧
     pending c' = None ∧
     rows (view c') Detections =
       filter (λ r, row_key r ≠ id) (rows (view c) Detections) ∧
     (∀ t, t ≠ Detections → rows (view c') t = rows (view c) t) ∧
     get_detection id c' = (Return None, c')) ∧
  (∃ c',
     delete_annotation id c = (Return (), c') ∧
     pending c' = None ∧
     rows (view c') Annotations =
       filter (λ r, row_key r ≠ id) (rows (view c) Annotations) ∧
     (∀ t, t ≠ Annotations → rows (view c') t = rows (view c) t) ∧
     get_annotation id c' = (Return None, c')).
Proof.
  intros Hwf. split.
  - apply (delete_row c Detections); [done..|by left].
  - apply (delete_row c Annotations); [done..|by left].
Qed.

(** ** The connection of the store *)

Lemma enforcement_ret {A : Type} (a : A) : keeps_enforcement (mret a : Py A).
Proof. by intros c. Qed.

Lemma enforcement_pure {A : Type} (o : outcome A) : keeps_enforcement (pure o).
Proof. by intros c. Qed.

Lemma enforcement_bind {A B : Type} (m : Py A) (f : A → Py B) :
  keeps_enforcement m → (∀ a, keeps_enforcement (f a)) →
  keeps_enforcement (m ≫= f).
Proof.
  intros Hm Hf c. unfold mbind, Py_bind. specialize (Hm c).
  destruct (m c) as [[a|e] c1]; [|done]. by rewrite Hf.
Qed.

Lemma enforcement_with_conn {A : Type} (m : Py A) :
  keeps_enforcement m → keeps_enforcement (with_conn m).
Proof.
  intros Hm c. unfold with_conn. specialize (Hm c).
  by destruct (m c) as [[a|e] c1].
Qed.

Lemma enforcement_for_each {A : Type} (l : list A) (body : A → Py ()) :
  (∀ x, keeps_enforcement (body x)) → keeps_enforcement (for_each l body).
Proof.
  intros Hbody. induction l as [|x l IH]; [apply enforcement_ret|].
  apply enforcement_bind; [apply Hbody|by intros _].
Qed.

Lemma enforcement_insert (t : table) (vals : list value) :
  keeps_enforcement (insert t vals).
Proof.
  intros c. unfold insert. destruct (new_row _ _ _) as [k r].
  by destruct (_ && _).
Qed.

Lemma enforcement_executemany (t : table) (values : list (list value)) :
  keeps_enforcement (executemany t values).
Proof.
  apply enforcement_for_each. intros vals.
  apply enforcement_bind; [apply enforcement_insert|].
  intros _. apply enforcement_ret.
Qed.

Lemma enforcement_update (t : table) (U : gmap string value) (key : Z) :
  keeps_enforcement (update t U key).
Proof.
  intros c. unfold update.
  destruct (set_list t U) as [sets|e]; [|done].
  destruct (existsb _ _); [|done].
  destruct (with_rowid t sets) as [sets'|e]; [|done].
  by destruct (update_rejected _ _ _ _).
Qed.

Lemma enforcement_delete (t : table) (key : Z) :
  keeps_enforcement (delete t key).
Proof. by intros c. Qed.

Lemma enforcement_add_scene (metadata : gmap string value) :
  keeps_enforcement (add_scene metadata).
Proof.
  apply enforcement_bind; [apply enforcement_pure|].
  intros values. apply enforcement_insert.
Qed.

Lemma enforcement_add_detections (scene_id : Z) (detections : list detection) :
  keeps_enforcement (add_detections scene_id detections).
Proof.
  apply enforcement_bind; [apply enforcement_pure|].
  intros values. apply enforcement_with_conn, enforcement_executemany.
Qed.

Lemma enforcement_add_scene_description (scene_id : Z)
    (description confidence model_version : value) :
  keeps_enforcement
    (add_scene_description scene_id description confidence model_version).
Proof.
  apply enforcement_with_conn, enforcement_bind; [apply enforcement_insert|].
  intros _. apply enforcement_ret.
Qed.

Lemma enforcement_body (scene : scene_record) :
  keeps_enforcement (incremental_update_body scene).
Proof.
  apply enforcement_bind; [apply enforcement_pure|]. intros metadata.
  apply enforcement_bind; [apply enforcement_add_scene|]. intros scene_id.
  apply enforcement_bind.
  { destruct (rec_detections scene);
      [apply enforcement_add_detections|apply enforcement_ret]. }
  intros _. destruct (rec_description scene); [|apply enforcement_ret].
  apply enforcement_bind; [apply enforcement_pure|]. intros confidence.
  apply enforcement_bind; [apply enforcement_pure|]. intros model_version.
  apply enforcement_add_scene_description.
Qed.

Lemma run_keeps_enforcement (k : call) (c : Conn) :
  foreign_keys (run k c) = foreign_keys c.
Proof.
  revert c. destruct k; cbn [run];
    match goal with
    | |- ∀ c, foreign_keys (?m c).2 = foreign_keys c =>
        change (keeps_enforcement m)
    end.
  - apply enforcement_add_scene.
  - apply enforcement_add_detections.
  - apply enforcement_bind; [apply enforcement_pure|]. intros values.
    apply enforcement_with_conn, enforcement_bind; [apply enforcement_insert|].
    intros _. apply enforcement_ret.
  - apply enforcement_with_conn, enforcement_executemany.
  - apply enforcement_add_scene_description.
  - apply enforcement_with_conn, enforcement_for_each, enforcement_body.
  - apply enforcement_with_conn, enforcement_update.
  - apply enforcement_with_conn, enforcement_update.
  - apply enforcement_with_conn, enforcement_update.
  - apply enforcement_with_conn, enforcement_delete.
  - apply enforcement_with_conn, enforcement_delete.
  - apply enforcement_with_conn, enforcement_delete.
Qed.

Lemma reachable_foreign_keys_off (file : Database) (c : Conn) :
  reachable file c → foreign_keys c = false.
Proof.
  induction 1 as [|c k _ IH]; [done|]. by rewrite run_keeps_enforcement.
Qed.

(** X16. Whatever the calls made on a store since it was opened on a
    database that satisfies the schema, the committed database and the
    database that the store reads satisfy the schema, and the
    connection does not enforce foreign keys: no method turns the
    enforcement on. *)
Theorem store_invariant (file : Database) (c : Conn) :
  well_formed file = true → reachable file c →
  well_formed (committed c) = true ∧
  well_formed (view c) = true ∧
  foreign_keys c = false.
Proof.
  intros Hfile Hc. destruct (reachable_conn_ok file c Hfile Hc).
  repeat split; try done. by eapply reachable_foreign_keys_off.
Qed.

(** X17. On a store, whatever the calls made on it, [delete_scene]
    removes the row of the scene and nothing else: the detections, the
    annotations, the descriptions and the dataset assignments of the
    scene stay, [get_scene] of the id returns [None], and an id that no
    scene has is no error. *)
Theorem delete_scene_on_store (file : Database) (c : Conn) (scene_id : Z) :
  well_formed file = true → reachable file c →
  ∃ c',
    delete_scene scene_id c = (Return (), c') ∧
    pending c' = None ∧
    rows (view c') Scenes =
      filter (λ r, row_key r ≠ scene_id) (rows (view c) Scenes) ∧
    (∀ t, t ≠ Scenes → rows (view c') t = rows (view c) t) ∧
    get_scene scene_id c' = (Return None, c').
Proof.
  intros Hfile Hc. apply (delete_row c Scenes); [done| |right].
  - by destruct (reachable_conn_ok file c Hfile Hc).
  - by eapply reachable_foreign_keys_off.
Qed.

(** X18. On a store, whatever the calls made on it, the four methods
    that insert a row for a scene id take any id, also one that no
    scene has: the row is stored and committed. *)
Theorem inserts_on_store_unchecked (file : Database) (c : Conn)
    (scene_id : Z) :
  reachable file c →
  (∀ detections, Forall (λ d, detection_ok d = true) detections →
     ∃ c', add_detections scene_id detections c = (Return (), c') ∧
           rows (committed c') Detections =
             rows (view c) Detections ++
             keyed (next_key (get_table (view c) Detections))
               (detection_fields scene_id <$> detections)) ∧
  (∀ annotation, is_Some (annotation !! "label_type"%string) →
     ∃ c', add_annotation scene_id annotation c = (Return (), c') ∧
           rows (committed c') Annotations =
             rows (view c) Annotations ++
             [VInt (next_key (get_table (view c) Annotations))
                :: annotation_fields scene_id annotation]) ∧
  (∀ description confidence model_version,
     ∃ c', add_scene_description scene_id description confidence
             model_version c = (Return (), c') ∧
           rows (committed c') SceneDescriptions =
             rows (view c) SceneDescriptions ++
             [[VInt (next_key (get_table (view c) SceneDescriptions));
               VInt scene_id; description; confidence; model_version]]) ∧
  (∀ dataset_type,
     ∃ c', assign_to_dataset [scene_id] dataset_type c = (Return (), c') ∧
           rows (committed c') Datasets =
             rows (view c) Datasets ++ [[VInt scene_id; VText dataset_type]]).
Proof.
  intros Hoff%reachable_foreign_keys_off.
  assert (reference_accepted c (VInt scene_id)) as Haccepted by (by left).
  split; [|split; [|split]].
  - intros detections Hok.
    destruct (add_detections_effect scene_id detections c Hok Haccepted)
      as (c' & Hrun & Hidle & _ & Hrows & _).
    exists c'. split; [done|]. rewrite <- Hrows. unfold view.
    by rewrite Hidle.
  - intros annotation [label_type Hlabel]. eexists. split.
    + unfold add_annotation, mbind, Py_bind, pure, getitem.
      rewrite Hlabel. simpl. unfold with_conn, mbind, Py_bind.
      by rewrite (insert_keyed Annotations) by (by try right).
    + change (committed (commit ?x)) with (view x).
      rewrite view_write, rows_set_table. case_decide; [|done].
      unfold annotation_fields, get. by rewrite Hlabel.
  - intros description confidence model_version. eexists. split.
    + unfold add_scene_description, with_conn, mbind, Py_bind.
      by rewrite (insert_keyed SceneDescriptions) by (by try right).
    + change (committed (commit ?x)) with (view x).
      by rewrite view_write, rows_set_table.
  - intros dataset_type.
    destruct (executemany_datasets [[VInt scene_id; VText dataset_type]] c)
      as (c1 & Hrun & _ & Hrows & _).
    { apply Forall_singleton. by exists (VInt scene_id). }
    exists (commit c1). unfold assign_to_dataset, with_conn. simpl map.
    by rewrite Hrun.
Qed.

(** ** Queries *)

Lemma string_compare_refl (s : string) : String.compare s s = Eq.
Proof.
  pose proof (String.compare_antisym s s) as Hanti.
  by destruct (String.compare s s).
Qed.

Lemma sql_eq_text (v : value) (s : string) :
  sql_eq v (VText s) = true ↔ v = VText s.
Proof.
  destruct v as [|z|q|s']; unfold sql_eq; simpl;
    try (split; [done|by intros [=]]).
  split.
  - destruct (String.compare s' s) eqn:Hcmp; try done.
    apply String.compare_eq_iff in Hcmp. by subst.
  - intros [= ->]. by rewrite string_compare_refl.
Qed.

Lemma sql_le_real (q : Q) (v : value) :
  sql_le (VReal q) v = true ↔ confidence_passes q v.
Proof.
  destruct v as [|z|p|s]; unfold sql_le, value_leb; simpl; try done.
  - rewrite Qle_alt. by destruct (q ?= inject_Z z)%Q.
  - rewrite Qle_alt. by destruct (q ?= p)%Q.
Qed.

(** X19. [get_detections_by_class] returns, as tuples and in table
    order, exactly the detections whose class label is the given text
    and whose confidence passes the threshold. A detection without a
    confidence (NULL) is never returned; a confidence stored as a text
    passes every threshold. *)
Theorem get_detections_by_class_rows (class_label : string) (threshold : Q)
    (c : Conn) :
  ∃ found,
    get_detections_by_class class_label threshold c
      = (Return (Tuple <$> found), c) ∧
    found `sublist_of` rows (view c) Detections ∧
    ∀ r, r ∈ found ↔
         r ∈ rows (view c) Detections ∧
         column 2 r = VText class_label ∧
         confidence_passes threshold (column 3 r).
Proof.
  eexists. split; [done|]. split; [apply sublist_filter|].
  intros r. rewrite list_elem_of_filter, Is_true_true, andb_true_iff.
  rewrite sql_eq_text, sql_le_real. tauto.
Qed.

Lemma sql_between_text (lo hi : string) (v : value) :
  sql_between v (VText lo) (VText hi) = true ↔ text_between lo hi v.
Proof.
  unfold sql_between, sql_le, value_leb, text_between.
  destruct v as [|z|q|ts]; simpl.
  - split; [done|]. by intros (ts & [=] & _).
  - split; [done|]. by intros (ts & [=] & _).
  - split; [done|]. by intros (ts & [=] & _).
  - split.
    + intros [Hlo Hhi]%andb_true_iff. exists ts.
      split; [done|].
      split; intros Hgt; [by rewrite Hgt in Hlo|by rewrite Hgt in Hhi].
    + intros (ts' & [= <-] & Hlo & Hhi).
      by destruct (String.compare lo ts), (String.compare ts hi).
Qed.

(** X20. [get_scenes_by_time_range] returns, as tuples and in table
    order, exactly the scenes whose timestamp is a text that lies
    between the ISO texts of the two datetimes in the byte order of
    texts. When the ISO text of [end] comes before that of [start] the
    result is empty. *)
Theorem get_scenes_by_time_range_rows `{Datetime T} (start end_ : T)
    (c : Conn) :
  ∃ found,
    get_scenes_by_time_range start end_ c = (Return (Tuple <$> found), c) ∧
    found `sublist_of` rows (view c) Scenes ∧
    (∀ r, r ∈ found ↔
          r ∈ rows (view c) Scenes ∧
          text_between (isoformat start) (isoformat end_) (column 1 r)) ∧
    (String.compare (isoformat start) (isoformat end_) = Gt → found = []).
Proof.
  eexists. split; [done|]. split; [apply sublist_filter|].
  assert (∀ r, r ∈ filter
                 (λ r, sql_between (column 1 r) (VText (isoformat start))
                         (VText (isoformat end_)))
                 (rows (view c) Scenes) ↔
               r ∈ rows (view c) Scenes ∧
               text_between (isoformat start) (isoformat end_) (column 1 r))
    as Hrows.
  { intros r. rewrite list_elem_of_filter, Is_true_true, sql_between_text.
    tauto. }
  split; [exact Hrows|].
  intros Hreversed. apply filter_none, Forall_forall.
  intros r _ (ts & _ & Hlo & Hhi)%Is_true_true%sql_between_text.
  destruct (String.compare (isoformat start) ts) eqn:Hcmp1; [| |done];
    destruct (String.compare ts (isoformat end_)) eqn:Hcmp2; try done.
  - apply String.compare_eq_iff in Hcmp1, Hcmp2.
    rewrite Hcmp1, <- Hcmp2 in Hreversed.
    by rewrite string_compare_refl in Hreversed.
  - apply String.compare_eq_iff in Hcmp1. rewrite Hcmp1 in Hreversed.
    congruence.
  - apply String.compare_eq_iff in Hcmp2. rewrite <- Hcmp2 in Hreversed.
    congruence.
  - assert (String.compare (isoformat start) (isoformat end_) ≠ Gt); [|done].
    apply (string_compare_trans _ ts); congruence.
Qed.

(** ** What the reads hand to the caller *)

Lemma joined_rows (db : Database) (s : row) :
  row_ok Scenes s = true →
  joined db s =
  (_ ← train_assignments db (row_key s);
   match descriptions_of db (row_key s) with
   | [] => [s ++ [VNull]]
   | _ => (λ d, s ++ [column 2 d]) <$> descriptions_of db (row_key s)
   end).
Proof.
  intros Hok.
  unfold joined, described, train_assignments, descriptions_of.
  by destruct (row_ok_key Scenes s eq_refl Hok) as [rest ->].
Qed.

Lemma training_rows_tuples (db : Database) (r : row) :
  well_formed db = true →
  r ∈ training_rows db ↔ training_tuple db r.
Proof.
  intros Hwf. rewrite training_rows_joined, list_elem_of_bind.
  unfold training_tuple. apply exist_proper. intros s.
  split.
  - intros [Hr Hs]. split; [done|].
    rewrite joined_rows in Hr
      by (eapply table_ok_row; [by apply well_formed_table|done]).
    apply list_elem_of_bind in Hr as (a & Hr & Ha).
    split; [intros Hnil; rewrite Hnil in Ha; by apply elem_of_nil in Ha|].
    destruct (descriptions_of db (row_key s)) as [|d ds] eqn:Hds.
    + left. split; [done|]. by apply list_elem_of_singleton in Hr.
    + right. apply list_elem_of_fmap in Hr as (d' & -> & Hd'). by exists d'.
  - intros (Hs & Hassigned & Hr). split; [|done].
    rewrite joined_rows
      by (eapply table_ok_row; [by apply well_formed_table|done]).
    destruct (train_assignments db (row_key s)) as [|a l]; [done|].
    apply list_elem_of_bind. exists a. split; [|left].
    destruct Hr as [[-> ->]|(d & Hd & ->)]; [left|].
    destruct (descriptions_of db (row_key s)) as [|d' ds];
      [by apply elem_of_nil in Hd|].
    by apply (list_elem_of_fmap_2 (λ d, s ++ [column 2 d])).
Qed.

(** C3, as amended. On a database that satisfies the schema, and for
    ids and limits that the binding takes, [get_scene],
    [get_detection] and [get_annotation] return the row that has the
    id as the dictionary of its columns in declaration order, and
    [None] when no row has it; [get_all_scenes] returns the
    scenes that it selects, and [get_scene_detections] the detections
    of the scene in table order, as such dictionaries.
    [get_scenes_by_time_range], [get_detections_by_class] and
    [get_training_data] return the rows that they select as the tuples
    of [fetchall]: the scenes in the range, the detections of the class
    that pass the threshold, and what the join makes of the scenes
    assigned to 'train'. *)
Theorem reads_marshalling `{Datetime T} (c : Conn) :
  well_formed (view c) = true →
  (∀ r, r ∈ rows (view c) Scenes →
        get_scene (row_key r) c =
          (Return (Some (mapping_of Scenes r)), c)) ∧
  (∀ id, int64 id → id ∉ row_key <$> rows (view c) Scenes →
         get_scene id c = (Return None, c)) ∧
  (∀ r, r ∈ rows (view c) Detections →
        get_detection (row_key r) c =
          (Return (Some (mapping_of Detections r)), c)) ∧
  (∀ id, int64 id → id ∉ row_key <$> rows (view c) Detections →
         get_detection id c = (Return None, c)) ∧
  (∀ r, r ∈ rows (view c) Annotations →
        get_annotation (row_key r) c =
          (Return (Some (mapping_of Annotations r)), c)) ∧
  (∀ id, int64 id → id ∉ row_key <$> rows (view c) Annotations →
         get_annotation id c = (Return None, c)) ∧
  (∀ limit, int64 limit → ∃ top rest : list row,
     get_all_scenes limit c = (Return (mapping_of Scenes <$> top), c) ∧
     top ++ rest ≡ₚ rows (view c) Scenes ∧
     length top =
       (if limit <? 0 then length (rows (view c) Scenes)
        else (Z.to_nat limit `min` length (rows (view c) Scenes))%nat) ∧
     StronglySorted newer_first top ∧
     ∀ r r', r ∈ top → r' ∈ rest → newer_first r r') ∧
  (∀ id, int64 id → get_scene_detections id c =
           (Return (mapping_of Detections <$>
                    filter (λ r, refers 1 id r) (rows (view c) Detections)),
            c)) ∧
  (∀ start end_ : T, ∃ found : list row,
     get_scenes_by_time_range start end_ c = (Return (Tuple <$> found), c) ∧
     found `sublist_of` rows (view c) Scenes ∧
     ∀ r, r ∈ found ↔
          r ∈ rows (view c) Scenes ∧
          text_between (isoformat start) (isoformat end_) (column 1 r)) ∧
  (∀ label threshold, ∃ found : list row,
     get_detections_by_class label threshold c =
       (Return (Tuple <$> found), c) ∧
     found `sublist_of` rows (view c) Detections ∧
     ∀ r, r ∈ found ↔
          r ∈ rows (view c) Detections ∧
          column 2 r = VText label ∧
          confidence_passes threshold (column 3 r)) ∧
  (∃ found : list row,
     get_training_data c = (Return (Tuple <$> found), c) ∧
     ∀ r, r ∈ found ↔ training_tuple (view c) r).
Proof.
  intros Hwf.
  assert (∀ t id, has_rowid_key t = true →
            id ∉ row_key <$> rows (view c) t →
            read_one t id c = (Return None, c)) as Hmissing.
  { intros t id Ht Hnone. apply read_one_missing.
    destruct (existsb _ _) eqn:Hex; [|done].
    apply (existsb_key_is t) in Hex; [done..|by apply rows_ok]. }
  split; [intros r Hr; by apply (read_one_found Scenes)|].
  split; [intros id _; by apply (Hmissing Scenes)|].
  split; [intros r Hr; by apply (read_one_found Detections)|].
  split; [intros id _; by apply (Hmissing Detections)|].
  split; [intros r Hr; by apply (read_one_found Annotations)|].
  split; [intros id _; by apply (Hmissing Annotations)|].
  split; [intros limit _; by apply get_all_scenes_top|].
  split.
  { intros id _.
    unfold get_scene_detections, mbind, Py_bind, select, rows_to_dicts, pure.
    by rewrite comprehension_dicts by by apply rows_ok_filter. }
  split.
  { intros start end_. eexists. split; [done|].
    split; [apply sublist_filter|]. intros r.
    rewrite list_elem_of_filter, Is_true_true, sql_between_text. tauto. }
  split.
  { intros label threshold. eexists. split; [done|].
    split; [apply sublist_filter|]. intros r.
    rewrite list_elem_of_filter, Is_true_true, andb_true_iff.
    rewrite sql_eq_text, sql_le_real. tauto. }
  exists (training_rows (view c)). split; [done|].
  intros r. by apply training_rows_tuples.
Qed.

(** ** Rows as dictionaries *)

Lemma dict_set_fresh (k : string) (v : value) (d : list (string * value)) :
  k ∉ d.*1 → dict_set k v d = d ++ [(k, v)].
Proof.
  induction d as [|[k' v'] d IH]; [done|]. simpl.
  intros Hfresh. apply not_elem_of_cons in Hfresh as [Hne Hfresh].
  destruct (String.eqb_spec k k'); [done|]. by rewrite IH.
Qed.

Lemma dict_set_keys (k : string) (v : value) (d : list (string * value)) :
  NoDup d.*1 → NoDup (dict_set k v d).*1 ∧
               (length (dict_set k v d) ≤ S (length d))%nat ∧
               ∀ k', k' ∈ (dict_set k v d).*1 → k' = k ∨ k' ∈ d.*1.
Proof.
  induction d as [|[k' v'] d IH]; simpl.
  - intros _. split; [apply NoDup_singleton|]. split; [lia|].
    intros k' ->%list_elem_of_singleton. by left.
  - intros [Hfresh Hd]%NoDup_cons.
    destruct (String.eqb_spec k k') as [->|Hne]; simpl.
    + split; [by apply NoDup_cons|]. split; [lia|]. by right.
    + destruct (IH Hd) as (Hnd & Hlen & Hkeys).
      split; [|split; [lia|]].
      * apply NoDup_cons. split; [|done].
        intros [->|Hin]%Hkeys; done.
      * intros k'' [->|[->|Hin]%Hkeys]%elem_of_cons;
          [right; left|by left|right; by right].
Qed.

Lemma row_items_zip (description : list description_entry) (row : row)
    (i : nat) (d : list (string * value)) :
  NoDup (d.*1 ++ drop i description.*1) →
  (length row + i ≤ length description)%nat →
  row_items i row description d
  = Return (d ++ zip (drop i description.*1) row).
Proof.
  unfold description_entry in *.
  revert i d. induction row as [|v rest IH]; intros i d Hnd Hlen.
  - simpl. by rewrite zip_nil_r, app_nil_r.
  - simpl in Hlen. cbn [row_items]. unfold description_entry in *.
    destruct (lookup_lt_is_Some_2 description i) as [entry Hentry]; [lia|].
    rewrite Hentry.
    assert (description.*1 !! i = Some entry.1) as Hname
      by (by rewrite list_lookup_fmap, Hentry).
    rewrite (drop_S _ _ _ Hname) in Hnd |- *.
    rewrite dict_set_fresh.
    2:{ apply NoDup_app in Hnd as (_ & Hdisjoint & _).
        intros Hin. apply (Hdisjoint _ Hin). left. }
    rewrite IH; [|rewrite fmap_app, <- app_assoc; exact Hnd|lia].
    simpl. by rewrite <- app_assoc.
Qed.

Lemma row_items_short (description : list description_entry) (row : row)
    (i : nat) (d : list (string * value)) :
  (i ≤ length description < length row + i)%nat →
  row_items i row description d = Raise IndexError.
Proof.
  unfold description_entry in *.
  revert i d. induction row as [|v rest IH]; intros i d Hlen;
    simpl in Hlen; cbn [row_items]; unfold description_entry in *; [lia|].
  destruct (description !! i) as [entry|] eqn:Hentry; [|done].
  apply lookup_lt_Some in Hentry. apply IH. lia.
Qed.

Lemma row_items_keys (description : list description_entry) (row : row)
    (i : nat) (d items : list (string * value)) :
  NoDup d.*1 → row_items i row description d = Return items →
  NoDup items.*1 ∧ (length items ≤ length d + length row)%nat.
Proof.
  unfold description_entry in *.
  revert i d. induction row as [|v rest IH]; intros i d Hnd;
    cbn [row_items length].
  - intros [= <-]. split; [done|lia].
  - unfold description_entry in *.
    destruct (description !! i) as [entry|]; [|done].
    destruct (dict_set_keys entry.1 v d Hnd) as (Hnd' & Hlen & _).
    intros Hrun. destruct (IH _ _ Hnd' Hrun). split; [done|lia].
Qed.

(** X21. [_row_to_dict] pairs the values of a row with the names of
    the description, position by position, when the names differ from
    one another and the row is not longer than the description; a row
    that is longer than the description raises [IndexError]. Whatever
    the names, the dictionary has each key once and not more items than
    the row has values. *)
Theorem row_to_dict_zip (row : row) (description : list description_entry) :
  (NoDup description.*1 → (length row ≤ length description)%nat →
   _row_to_dict row description = Return (Dict (zip description.*1 row))) ∧
  ((length description < length row)%nat →
   _row_to_dict row description = Raise IndexError) ∧
  (∀ items, _row_to_dict row description = Return (Dict items) →
            NoDup items.*1 ∧ (length items ≤ length row)%nat).
Proof.
  unfold _row_to_dict. split; [|split].
  - intros Hnd Hlen. rewrite (row_items_zip _ _ 0 []); [done|done|lia].
  - intros Hlen. rewrite row_items_short; [done|lia].
  - intros items Hrun.
    destruct (row_items 0 row description []) as [items'|] eqn:Hitems;
      [|done].
    injection Hrun as ->.
    by apply (row_items_keys description row 0 []); [apply NoDup_nil|].
Qed.

(** ** Batches that go through *)

Lemma parent_exists_scenes (db db' : Database) (v : value) :
  get_table db' Scenes = get_table db Scenes →
  parent_exists db' v = parent_exists db v.
Proof. intros Heq. unfold parent_exists, rows. by rewrite Heq. Qed.

Lemma parent_exists_appended (l : list row) (k n : Z) (vals : list value)
    (db : Database) :
  parent_exists (set_table Scenes (mkTable (l ++ [VInt k :: vals]) n) db)
    (VInt k) = true.
Proof.
  unfold parent_exists. rewrite rows_set_table. simpl.
  rewrite existsb_app. simpl. by rewrite sql_eq_int, Z.eqb_refl, orb_true_r.
Qed.

Lemma record_rows_stored_mono (db db' : Database) (scene_id : Z)
    (r : scene_record) :
  (∀ t, rows db t `prefix_of` rows db' t) →
  record_rows_stored db scene_id r → record_rows_stored db' scene_id r.
Proof.
  intros Hprefix [Hdets Hdesc]. split.
  - intros detections Hsome. destruct (Hdets _ Hsome) as [n Hsub].
    exists n. destruct (Hprefix Detections) as [more ->].
    by apply sublist_inserts_r.
  - intros description Hsome. destruct (Hdesc _ Hsome) as [k Hin].
    exists k. destruct (Hprefix SceneDescriptions) as [more ->].
    apply elem_of_app. by left.
Qed.

Lemma body_effect (r : scene_record) (c : Conn) :
  record_ok r = true →
  ∃ metadata c',
    rec_metadata r = Some metadata ∧
    incremental_update_body r c = (Return (), c') ∧
    foreign_keys c' = foreign_keys c ∧
    get_table (view c') Scenes =
      mkTable (rows (view c) Scenes ++
               [VInt (next_key (get_table (view c) Scenes))
                  :: scene_fields metadata])
        (next_key (get_table (view c) Scenes)) ∧
    (∀ t, rows (view c) t `prefix_of` rows (view c') t) ∧
    rows (view c') Annotations = rows (view c) Annotations ∧
    rows (view c') Datasets = rows (view c) Datasets ∧
    record_rows_stored (view c') (next_key (get_table (view c) Scenes)) r.
Proof.
  unfold record_ok. rewrite !andb_true_iff. intros [[Hmeta Hdets] Hdesc].
  destruct (rec_metadata r) as [metadata|] eqn:Hmetadata; [|done].
  set (k := next_key (get_table (view c) Scenes)).
  set (c1 := write (set_table Scenes
                      (mkTable (rows (view c) Scenes ++
                                [VInt k :: scene_fields metadata]) k)
                      (view c)) c).
  assert (reference_accepted c1 (VInt k)) as Haccepted1.
  { right. unfold c1. rewrite view_write. apply parent_exists_appended. }
  (* the detections *)
  assert (∃ c2,
            (match rec_detections r with
             | Some detections => add_detections k detections
             | None => mret ()
             end : Py ()) c1 = (Return (), c2) ∧
            foreign_keys c2 = foreign_keys c1 ∧
            (∀ t, t ≠ Detections →
                  get_table (view c2) t = get_table (view c1) t) ∧
            rows (view c1) Detections `prefix_of` rows (view c2) Detections ∧
            (∀ detections, rec_detections r = Some detections →
               ∃ n, keyed n (detection_fields k <$> detections)
                    `sublist_of` rows (view c2) Detections))
    as (c2 & Hrun2 & Hfk2 & Hothers2 & Hprefix2 & Hstored2).
  { destruct (rec_detections r) as [detections|].
    - destruct (add_detections_effect k detections c1)
        as (c2 & Hrun & _ & Hfk & Hrows & Hothers); [|done|].
      { apply Forall_forall. intros d Hd.
        rewrite forallb_forall in Hdets. by apply Hdets, list_elem_of_In. }
      exists c2. repeat split; try done.
      + rewrite Hrows. by eexists.
      + intros ? [= <-]. eexists. rewrite Hrows. by apply sublist_inserts_l.
    - exists c1. by repeat split. }
  assert (reference_accepted c2 (VInt k)) as Haccepted2.
  { destruct Haccepted1 as [Hoff|Hparent]; [left; congruence|right].
    rewrite <- Hparent. apply parent_exists_scenes. by apply Hothers2. }
  (* the description *)
  assert (∃ c3,
            (match rec_description r with
             | Some description =>
                 confidence ←
                   pure (subscript "confidence" (rec_confidence r));
                 model_version ←
                   pure (subscript "model_version" (rec_model_version r));
                 add_scene_description k description confidence model_version
             | None => mret ()
             end : Py ()) c2 = (Return (), c3) ∧
            foreign_keys c3 = foreign_keys c2 ∧
            (∀ t, t ≠ SceneDescriptions →
                  get_table (view c3) t = get_table (view c2) t) ∧
            rows (view c2) SceneDescriptions
              `prefix_of` rows (view c3) SceneDescriptions ∧
            (∀ description, rec_description r = Some description →
               ∃ n, [VInt n; VInt k; description;
                     default VNull (rec_confidence r);
                     default VNull (rec_model_version r)]
                    ∈ rows (view c3) SceneDescriptions))
    as (c3 & Hrun3 & Hfk3 & Hothers3 & Hprefix3 & Hstored3).
  { destruct (rec_description r) as [description|].
    - apply andb_true_iff in Hdesc as [Hconf Hversion].
      apply bool_decide_eq_true in Hconf as [confidence Hconf].
      apply bool_decide_eq_true in Hversion as [model_version Hversion].
      rewrite Hconf, Hversion. eexists. split.
      { unfold mbind, Py_bind, pure, subscript, add_scene_description,
          with_conn. cbv beta iota. unfold mbind, Py_bind.
        by rewrite (insert_keyed SceneDescriptions) by (by try right). }
      split; [done|]. split; [|split].
      + intros t Hne. rewrite view_commit, view_write.
        by apply get_set_table_ne.
      + rewrite view_commit, view_write, rows_set_table. simpl.
        by eexists.
      + intros ? [= <-]. eexists.
        rewrite view_commit, view_write, rows_set_table. simpl.
        apply elem_of_app. right. left.
    - exists c2. by repeat split. }
  exists metadata, c3. split; [done|]. split.
  { unfold incremental_update_body. rewrite Hmetadata.
    unfold mbind at 1, Py_bind at 1, pure at 1, subscript at 1.
    unfold mbind at 1, Py_bind at 1.
    rewrite add_scene_effect by done. fold k. fold c1.
    unfold mbind at 1, Py_bind at 1. by rewrite Hrun2. }
  split; [by rewrite Hfk3, Hfk2|].
  assert (get_table (view c3) Scenes = get_table (view c1) Scenes) as Hscenes
    by (by rewrite Hothers3, Hothers2).
  split; [by rewrite Hscenes|].
  assert (∀ t, t ≠ Scenes → t ≠ Detections → t ≠ SceneDescriptions →
               rows (view c3) t = rows (view c) t) as Hsame.
  { intros t ? ? ?. unfold rows. rewrite Hothers3, Hothers2 by done.
    unfold c1. rewrite view_write. by rewrite get_set_table_ne. }
  split; [|split; [by apply Hsame|split; [by apply Hsame|]]].
  - intros t. destruct t.
    + unfold rows at 2. rewrite Hscenes. unfold c1.
      rewrite view_write, get_set_table. simpl. by eexists.
    + unfold rows at 2. rewrite Hothers3 by done. fold (rows (view c2) Detections).
      destruct Hprefix2 as [more ->]. unfold c1.
      rewrite view_write, rows_set_table. simpl. by eexists.
    + by rewrite Hsame.
    + destruct Hprefix3 as [more ->]. unfold rows at 2.
      rewrite Hothers2 by done. unfold c1.
      rewrite view_write, get_set_table. simpl. by eexists.
    + by rewrite Hsame.
  - split; [|done].
    intros detections Hsome. destruct (Hstored2 _ Hsome) as [n Hsub].
    exists n. unfold rows. rewrite Hothers3 by done. exact Hsub.
Qed.

Lemma keyed_cons (n : Z) (vals : list value) (values : list (list value)) :
  keyed n (vals :: values) = (VInt n :: vals) :: keyed (n + 1) values.
Proof.
  unfold keyed. simpl. rewrite Z.add_0_r. f_equal.
  apply imap_ext. intros j x _. simpl. do 2 f_equal. lia.
Qed.

Lemma batch_effect (batch : list scene_record) (c : Conn) :
  Forall (λ r, record_ok r = true) batch →
  ∃ c',
    for_each batch incremental_update_body c = (Return (), c') ∧
    foreign_keys c' = foreign_keys c ∧
    rows (view c') Scenes =
      rows (view c) Scenes ++
      keyed (next_key (get_table (view c) Scenes))
        (scene_fields <$> omap rec_metadata batch) ∧
    (∀ t, rows (view c) t `prefix_of` rows (view c') t) ∧
    rows (view c') Annotations = rows (view c) Annotations ∧
    rows (view c') Datasets = rows (view c) Datasets ∧
    ∀ j r, batch !! j = Some r →
      record_rows_stored (view c')
        (next_key (get_table (view c) Scenes) + Z.of_nat j) r.
Proof.
  intros Hbatch. revert c.
  induction Hbatch as [|r batch Hr _ IH]; intros c.
  - exists c. simpl. rewrite app_nil_r. by repeat split.
  - destruct (body_effect r c Hr)
      as (metadata & c1 & Hmetadata & Hrun1 & Hfk1 & Hscenes1 & Hprefix1 &
          Hann1 & Hsets1 & Hstored1).
    destruct (IH c1)
      as (c' & Hrun & Hfk & Hscenes & Hprefix & Hann & Hsets & Hstored).
    set (k := next_key (get_table (view c) Scenes)) in *.
    assert (next_key (get_table (view c1) Scenes) = k + 1) as Hnext.
    { rewrite Hscenes1. apply (next_key_append (get_table (view c) Scenes)). }
    exists c'. split; [|split; [congruence|split; [|split; [|split; [|split]]]]].
    + simpl. unfold mbind, Py_bind. by rewrite Hrun1.
    + rewrite Hscenes, Hnext. unfold rows at 1. rewrite Hscenes1.
      simpl. rewrite Hmetadata. simpl. rewrite keyed_cons.
      by rewrite <- app_assoc.
    + intros t. etrans; [apply Hprefix1|apply Hprefix].
    + congruence.
    + congruence.
    + intros [|j] r' Hlookup; simpl in Hlookup.
      * injection Hlookup as <-. rewrite Z.add_0_r.
        by apply (record_rows_stored_mono (view c1)).
      * rewrite Hnext in Hstored.
        replace (k + Z.of_nat (S j)) with (k + 1 + Z.of_nat j) by lia.
        by apply Hstored.
Qed.

(** X22. A batch whose records all have metadata with the required
    keys, well-formed detections (if any) and a description (if any)
    that comes with its confidence and model version goes through:
    [incremental_update] returns with everything committed; the scenes
    are appended in the order of the batch under consecutive new ids;
    the detections and the description of each record are stored under
    the id of the scene of that record; annotations and dataset
    assignments are untouched. *)
Theorem incremental_update_stores_batch (new_scenes : list scene_record)
    (c : Conn) :
  Forall (λ r, record_ok r = true) new_scenes →
  ∃ c',
    incremental_update new_scenes c = (Return (), c') ∧
    pending c' = None ∧
    rows (view c') Scenes =
      rows (view c) Scenes ++
      keyed (next_key (get_table (view c) Scenes))
        (scene_fields <$> omap rec_metadata new_scenes) ∧
    (∀ j r, new_scenes !! j = Some r →
       record_rows_stored (view c')
         (next_key (get_table (view c) Scenes) + Z.of_nat j) r) ∧
    rows (view c') Annotations = rows (view c) Annotations ∧
    rows (view c') Datasets = rows (view c) Datasets.
Proof.
  intros Hbatch.
  destruct (batch_effect new_scenes c Hbatch)
    as (c1 & Hrun & _ & Hscenes & _ & Hann & Hsets & Hstored).
  exists (commit c1). unfold incremental_update, with_conn. rewrite Hrun.
  by rewrite view_commit.
Qed.

(** * The store at work *)

(** ** Batches are not atomic *)

(** C1, the failing input. The second record of the batch is
    malformed: the call raises, and the scene and the detection of the
    first record stay in the store, committed when [add_detections]
    left its own [with self.conn:] block. *)
Theorem incremental_update_keeps_first_record :
  rows (view new_store) Scenes = [] ∧
  rows (view new_store) Detections = [] ∧
  ∃ c',
    incremental_update [first_record; malformed_record] new_store =
      (Raise (KeyError "confidence"), c') ∧
    rows (view c') Scenes =
      [[VInt 1; VText "2024-01-01T10:00:00"; VNull; VNull; VNull;
        VText "cam-1"; VText "/media/1.jpg"]] ∧
    rows (view c') Detections =
      [[VInt 1; VInt 1; VText "car"; VReal (9 # 10);
        VInt 0; VInt 0; VInt 10; VInt 10]].
Proof. split; [done|]. split; [done|]. eexists. by vm_compute. Qed.

(** The batch of the specification's example, one record with a
    malformed detection, is undone. *)
Example incremental_update_single_malformed :
  incremental_update [malformed_record] new_store =
  (Raise (KeyError "confidence"), new_store).
Proof. by vm_compute. Qed.

(** ** Foreign keys are not enforced *)

(** C2, the failing input. The scene is deleted and its detection stays:
    [get_scene_detections] still returns it. *)
Theorem delete_scene_keeps_detections :
  ∃ c',
    delete_scene 1 one_scene_store = (Return (), c') ∧
    get_scene 1 c' = (Return None, c') ∧
    get_scene_detections 1 c' =
      (Return [Dict [("detection_id", VInt 1); ("scene_id", VInt 1);
                     ("class_label", VText "car");
                     ("confidence", VReal (9 # 10));
                     ("x_min", VInt 0); ("y_min", VInt 0);
                     ("x_max", VInt 10); ("y_max", VInt 10)]%string], c').
Proof. eexists. by vm_compute. Qed.

(** C4, the failing input. No scene has the id 42, and each of the
    four inserts for scene 42 returns and leaves a committed row. *)
Theorem inserts_for_missing_scene_accepted :
  rows (view new_store) Scenes = [] ∧
  (∃ c', add_detections 42 [car] new_store = (Return (), c') ∧
         rows (committed c') Detections =
           [[VInt 1; VInt 42; VText "car"; VReal (9 # 10);
             VInt 0; VInt 0; VInt 10; VInt 10]]) ∧
  (∃ c', add_annotation 42 {[ "label_type"%string := VText "classification" ]}
           new_store = (Return (), c') ∧
         rows (committed c') Annotations =
           [[VInt 1; VInt 42; VText "classification"; VNull; VNull;
             VNull; VNull; VNull; VNull; VNull]]) ∧
  (∃ c', add_scene_description 42 (VText "a street") (VReal (8 # 10))
           (VText "v1") new_store = (Return (), c') ∧
         rows (committed c') SceneDescriptions =
           [[VInt 1; VInt 42; VText "a street"; VReal (8 # 10); VText "v1"]]) ∧
  (∃ c', assign_to_dataset [42] "train" new_store = (Return (), c') ∧
         rows (committed c') Datasets = [[VInt 42; VText "train"]]).
Proof.
  split; [done|].
  split; [|split; [|split]]; eexists; by vm_compute.
Qed.

(** ** Counterexamples *)

(** C3 as stated fails: three of the reads return tuples. *)
Lemma some_reads_return_tuples :
  (∃ res, @get_scenes_by_time_range string iso_text
            "2024-01-01T00:00:00" "2024-12-31T23:59:59" training_store =
            (Return res, training_store) ∧
          ¬ Forall is_mapping res) ∧
  (∃ res, get_detections_by_class "car" (1 # 2) training_store =
            (Return res, training_store) ∧
          ¬ Forall is_mapping res) ∧
  (∃ res, get_training_data training_store = (Return res, training_store) ∧
          ¬ Forall is_mapping res).
Proof.
  split; [|split]; eexists; (split; [by vm_compute|]);
    intros [[items [=]] _]%Forall_cons.
Qed.

(** C6 as stated fails: a scene with one description that is assigned
    to 'train' twice comes twice, not once per description. *)
Lemma scene_assigned_twice_comes_twice :
  descriptions_of (view twice_assigned_store) 2 =
    [[VInt 1; VInt 2; VText "a street"; VReal (8 # 10); VText "v1"]] ∧
  get_training_data twice_assigned_store =
    (Return [Tuple [VInt 2; VText "2024-01-02T10:00:00"; VNull; VNull; VNull;
                    VText "cam-1"; VText "/media/2.jpg"; VText "a street"];
             Tuple [VInt 2; VText "2024-01-02T10:00:00"; VNull; VNull; VNull;
                    VText "cam-1"; VText "/media/2.jpg"; VText "a street"]],
     twice_assigned_store).
Proof. split; by vm_compute. Qed.

(** C9 as stated fails: an empty update changes what the store reads.
    [create_scene] has returned the id 1 and [get_scene 1] returns the
    scene; [update_scene 1 {}] raises, and afterwards [get_scene 1]
    returns [None]: the rollback has taken the scene, which nothing had
    committed, along. *)
Lemma empty_update_discards_pending_scene :
  ∃ c1 c2,
    create_scene located_scene new_store = (Return 1, c1) ∧
    get_scene 1 c1 =
      (Return (Some (mapping_of Scenes
                       [VInt 1; VText "2024-01-03T10:00:00"; VReal (25 # 2);
                        VNull; VNull; VText "cam-1"; VText "/media/3.jpg"])),
       c1) ∧
    update_scene 1 ∅ c1 = (Raise (OperationalError "syntax error"), c2) ∧
    get_scene 1 c2 = (Return None, c2) ∧
    rows (view c2) Scenes ≠ rows (view c1) Scenes.
Proof. eexists _, _. by vm_compute. Qed.

(** C8 as stated fails: [scene_id] is a column of [scenes], and an
    update that moves scene 1 to the key of scene 2 is refused. *)
Lemma update_scene_key_collision :
  key_update ≠ ∅ ∧
  (∀ k v, key_update !! k = Some v → k ∈ columns Scenes) ∧
  existsb (key_is 1) (rows (view two_scene_store) Scenes) = true ∧
  ∃ c', update_scene 1 key_update two_scene_store =
          (Raise (IntegrityError "UNIQUE constraint failed"), c') ∧
        rows (view c') Scenes = rows (view two_scene_store) Scenes.
Proof.
  unfold key_update. split; [|split; [|split]].
  - apply insert_non_empty.
  - intros k v [<- _]%lookup_singleton_Some. set_solver.
  - by vm_compute.
  - eexists. by vm_compute.
Qed.

(** ** Limits, names and keys as the engine reads them *)

(** A negative limit is no limit: with the limit -1 all the scenes come
    back. *)
Example negative_limit_returns_all :
  ∃ res, get_all_scenes (-1) two_scene_store = (Return res, two_scene_store) ∧
         length res = 2%nat.
Proof. eexists. by vm_compute. Qed.

(** A key names its column in any letter case, and [rowid] names the
    key column: the first update sets the latitude of scene 1, the
    second moves the scene to the key 7. *)
Example update_scene_other_spellings :
  (∃ c', update_scene 1 {[ "LATITUDE"%string := VReal (25 # 2) ]}
           two_scene_store = (Return (), c') ∧
         get_scene 1 c' =
           (Return (Some (mapping_of Scenes
                            [VInt 1; VText "2024-01-01T10:00:00";
                             VReal (25 # 2); VNull; VNull; VText "cam-1";
                             VText "/media/1.jpg"])), c')) ∧
  (∃ c', update_scene 1 {[ "rowid"%string := VInt 7 ]} two_scene_store =
           (Return (), c') ∧
         get_scene 1 c' = (Return None, c') ∧
         get_scene 7 c' =
           (Return (Some (mapping_of Scenes
                            [VInt 7; VText "2024-01-01T10:00:00"; VNull;
                             VNull; VNull; VText "cam-1";
                             VText "/media/1.jpg"])), c')).
Proof. split; eexists; by vm_compute. Qed.

(** A new key given as the float 3.0 or as the text '7' is stored as
    the integer; the text 'abc' and NULL are refused. *)
Example update_scene_key_values :
  (∃ c', update_scene 1 {[ "scene_id"%string := VReal 3 ]} two_scene_store =
           (Return (), c') ∧
         get_scene 1 c' = (Return None, c') ∧
         get_scene 3 c' =
           (Return (Some (mapping_of Scenes
                            [VInt 3; VText "2024-01-01T10:00:00"; VNull;
                             VNull; VNull; VText "cam-1";
                             VText "/media/1.jpg"])), c')) ∧
  (∃ c', update_scene 1 {[ "scene_id"%string := VText "7" ]}
           two_scene_store = (Return (), c') ∧
         get_scene 1 c' = (Return None, c') ∧
         get_scene 7 c' =
           (Return (Some (mapping_of Scenes
                            [VInt 7; VText "2024-01-01T10:00:00"; VNull;
                             VNull; VNull; VText "cam-1";
                             VText "/media/1.jpg"])), c')) ∧
  update_scene 1 {[ "scene_id"%string := VText "abc" ]} two_scene_store =
    (Raise (IntegrityError "datatype mismatch"), two_scene_store) ∧
  update_scene 1 {[ "scene_id"%string := VNull ]} two_scene_store =
    (Raise (IntegrityError "datatype mismatch"), two_scene_store).
Proof.
  split; [eexists; by vm_compute|]. split; [eexists; by vm_compute|].
  split; by vm_compute.
Qed.

(** ** The theorems at work *)

(** A scene with a latitude, created in the two-scene store, reads
    back. *)
Lemma create_scene_get_scene_witness :
  ∃ i c',
    create_scene located_scene two_scene_store = (Return i, c') ∧
    get_scene i c' =
    (Return (Some (Dict [("scene_id", VInt i);
                         ("timestamp", VText "2024-01-03T10:00:00");
                         ("latitude", VReal (25 # 2));
                         ("longitude", VNull);
                         ("resolution", VNull);
                         ("camera_id", VText "cam-1");
                         ("media_path", VText "/media/3.jpg")]%string)), c').
Proof.
  apply (create_scene_get_scene two_scene_store located_scene
           (VText "2024-01-03T10:00:00") (VText "cam-1")
           (VText "/media/3.jpg")); reflexivity.
Defined.

(** The reads of the training store: the second scene as a dictionary,
    and the training data as tuples. *)
Lemma reads_marshalling_witness :
  well_formed (view training_store) = true ∧
  get_scene 2 training_store =
    (Return (Some (mapping_of Scenes second_scene)), training_store) ∧
  ∃ found : list row,
    get_training_data training_store =
      (Return (Tuple <$> found), training_store) ∧
    second_scene ++ [VText "a street"] ∈ found.
Proof.
  split; [reflexivity|].
  destruct (@reads_marshalling string iso_text training_store)
    as (Hscene & _ & _ & _ & _ & _ & _ & _ & _ & _ & found & Hread & Hfound);
    [reflexivity|].
  split.
  - apply (Hscene second_scene).
    apply (list_elem_of_lookup_2 _ 1%nat). reflexivity.
  - exists found. split; [exact Hread|]. apply Hfound.
    exists second_scene.
    split; [apply (list_elem_of_lookup_2 _ 1%nat); reflexivity|].
    split; [by vm_compute|]. right.
    exists [VInt 1; VInt 2; VText "a street"; VReal (8 # 10); VText "v1"].
    split; [|reflexivity].
    apply (list_elem_of_lookup_2 _ 0%nat). by vm_compute.
Defined.

(** The training data of the training store. *)
Lemma get_training_data_rows_witness :
  well_formed (view training_store) = true ∧
  ∃ res : list row,
    get_training_data training_store =
    (Return (Tuple <$> res), training_store).
Proof.
  split; [reflexivity|].
  destruct (get_training_data_rows training_store) as (res & Hres & _);
    [reflexivity|].
  by exists res.
Defined.


(** [update_scene(1, {"latitude": 12.5})] on the two-scene store. *)
Lemma update_scene_frame_witness :
  ∃ c' r',
    update_scene 1 latitude_update two_scene_store = (Return (), c') ∧
    rows (view c') Scenes =
      <[0%nat := r']> (rows (view two_scene_store) Scenes) ∧
    r' !! 1%nat = Some (VText "2024-01-01T10:00:00") ∧
    r' !! 2%nat = Some (VReal (25 # 2)) ∧
    rows (view c') Detections = rows (view two_scene_store) Detections.
Proof.
  destruct (update_scene_frame two_scene_store 1 latitude_update 0
              [VInt 1; VText "2024-01-01T10:00:00"; VNull; VNull; VNull;
               VText "cam-1"; VText "/media/1.jpg"])
    as (c' & r' & Hupdate & Hrows & _ & Hcols & Hothers).
  - reflexivity.
  - reflexivity.
  - reflexivity.
  - apply insert_non_empty.
  - unfold latitude_update.
    intros k v [<- _]%lookup_singleton_Some. set_solver.
  - exact I.
  - exists c', r'. split; [done|]. split; [done|].
    split; [exact (Hcols 1%nat "timestamp"%string eq_refl)|].
    split; [exact (Hcols 2%nat "latitude"%string eq_refl)|].
    by apply Hothers.
Defined.

(** A batch whose second record has a description and no confidence. *)
Lemma incremental_update_needs_triple_witness :
  ∃ e c',
    incremental_update ([first_record] ++ record_without_confidence :: [])
      new_store = (Raise e, c').
Proof.
  destruct (incremental_update_needs_triple [first_record] []
              record_without_confidence new_store)
    as (e & c' & Hraise & _).
  - split; [by eexists|by left].
  - by exists e, c'.
Defined.

(** ** The further properties at work *)

(** Metadata without a camera. *)
Lemma create_scene_required_keys_witness :
  create_scene scene_without_camera new_store =
  (Raise (KeyError "camera_id"), new_store).
Proof.
  destruct (create_scene_required_keys scene_without_camera new_store)
    as (_ & _ & Hcamera & _).
  apply Hcamera; [by eexists|reflexivity].
Defined.

(** A third scene for the two-scene store. *)
Lemma create_scene_appends_witness :
  (3 ∉ row_key <$> rows (view two_scene_store) Scenes) ∧
  rows (view (create_scene located_scene two_scene_store).2) Scenes =
    rows (view two_scene_store) Scenes ++ [VInt 3 :: scene_fields located_scene].
Proof.
  destruct (create_scene_appends located_scene two_scene_store
              (create_scene located_scene two_scene_store).2 3)
    as (Hfresh & Hrows & _); [by vm_compute|].
  by split.
Defined.

(** Closing the store after [create_scene] loses the scene. *)
Lemma create_scene_lost_on_close_witness :
  close (create_scene located_scene two_scene_store).2 =
  (Return (), two_scene_store).
Proof.
  apply (create_scene_lost_on_close located_scene two_scene_store _ 3);
    by vm_compute.
Defined.

(** A well-formed detection followed by one without a confidence. *)
Lemma add_detections_malformed_witness :
  ∃ e, add_detections 1 [car; car_without_confidence] one_scene_store =
         (Raise e, one_scene_store) ∧
       e ∈ marshalling_errors.
Proof.
  apply add_detections_malformed.
  apply Exists_cons_tl, Exists_cons_hd. reflexivity.
Defined.

(** A second detection for the scene of the one-scene store. *)
Lemma add_detections_stored_witness :
  ∃ c' n,
    add_detections 1 [car] one_scene_store = (Return (), c') ∧
    rows (view c') Detections =
      rows (view one_scene_store) Detections ++
      keyed n [detection_fields 1 car] ∧
    get_scene_detections 1 c' =
      (Return (mapping_of Detections <$>
               (stored_car :: keyed n [detection_fields 1 car])), c').
Proof.
  destruct (add_detections_stored 1 [car] one_scene_store)
    as (c' & n & Hrun & _ & Hrows & _ & Hread).
  - reflexivity.
  - apply Forall_singleton. reflexivity.
  - left. reflexivity.
  - by exists c', n.
Defined.

(** A scene and its detection, committed together. *)
Lemma create_scene_committed_by_add_detections_witness :
  ∃ c2,
    add_detections 3 [car] (create_scene located_scene two_scene_store).2 =
      (Return (), c2) ∧
    (VInt 3 :: scene_fields located_scene) ∈ rows (committed c2) Scenes.
Proof.
  destruct (create_scene_committed_by_add_detections located_scene [car]
              two_scene_store (create_scene located_scene two_scene_store).2 3)
    as (c2 & Hrun & _ & Hin).
  - by vm_compute.
  - apply Forall_singleton. reflexivity.
  - by exists c2.
Defined.

(** The second scene of the two-scene store, and a detection that is
    not there. *)
Lemma get_by_id_witness :
  get_scene 2 two_scene_store =
    (Return (Some (mapping_of Scenes second_scene)), two_scene_store) ∧
  get_detection 7 two_scene_store = (Return None, two_scene_store).
Proof.
  destruct (get_by_id two_scene_store 2) as (Hscene & _); [reflexivity|].
  destruct (get_by_id two_scene_store 7) as (_ & _ & _ & Hdetection & _);
    [reflexivity|].
  split.
  - apply Hscene; [|reflexivity].
    apply (list_elem_of_lookup_2 _ 1%nat). reflexivity.
  - apply Hdetection. compute_done.
Defined.

(** An annotation for the scene of the one-scene store. *)
Lemma add_annotation_get_annotation_witness :
  ∃ i c',
    add_annotation 1 car_annotation one_scene_store = (Return (), c') ∧
    get_annotation i c' =
      (Return (Some (mapping_of Annotations
                       (VInt i :: annotation_fields 1 car_annotation))), c').
Proof.
  destruct (add_annotation_get_annotation 1 car_annotation one_scene_store)
    as (i & c' & Hrun & _ & _ & Hread).
  - reflexivity.
  - by eexists.
  - left. reflexivity.
  - by exists i, c'.
Defined.

(** An annotation without a label type. *)
Lemma add_annotation_missing_label_type_witness :
  add_annotation 1 ∅ one_scene_store =
  (Raise (KeyError "label_type"), one_scene_store).
Proof. apply add_annotation_missing_label_type. reflexivity. Defined.

(** A second description for the scene of the training store. *)
Lemma add_scene_description_in_training_data_witness :
  ∃ c' found,
    add_scene_description 2 (VText "at night") VNull VNull training_store =
      (Return (), c') ∧
    get_training_data c' = (Return found, c') ∧
    Tuple (second_scene ++ [VText "at night"]) ∈ found.
Proof.
  destruct (add_scene_description_in_training_data second_scene
              (VText "at night") VNull VNull training_store)
    as (k & c' & Hrun & _ & _ & _ & _ & Hread).
  - reflexivity.
  - apply (list_elem_of_lookup_2 _ 1%nat). reflexivity.
  - destruct Hread as (found & Hread & Hin); [by vm_compute|].
    by exists c', found.
Defined.

(** The same scene assigned twice in one call. *)
Lemma assign_to_dataset_appends_witness :
  ∃ c',
    assign_to_dataset [2; 2] "train" two_scene_store = (Return (), c') ∧
    rows (view c') Datasets =
      rows (view two_scene_store) Datasets ++
      [[VInt 2; VText "train"]; [VInt 2; VText "train"]].
Proof.
  destruct (assign_to_dataset_appends [2; 2] "train" two_scene_store)
    as (c' & Hrun & _ & Hrows & _).
  - repeat apply Forall_cons_2; [left; reflexivity..|apply Forall_nil_2].
  - by exists c'.
Defined.

(** [update_detection(1, {"confidence": 0.5})] on the one-scene store. *)
Lemma update_detection_annotation_frame_witness :
  ∃ c',
    update_detection 1 confidence_update one_scene_store = (Return (), c') ∧
    row_updated Detections confidence_update 0 stored_car
      (view one_scene_store) (view c').
Proof.
  destruct (update_detection_annotation_frame one_scene_store
              confidence_update 0 stored_car) as [Hdetection _];
    [reflexivity|].
  destruct Hdetection as (c' & Hrun & _ & Hrow); [reflexivity| |].
  - unfold update_ok, confidence_update. split; [|split; [|split]].
    + apply insert_non_empty.
    + intros k v [<- _]%lookup_singleton_Some. compute_done.
    + intros col [= <-]. by vm_compute.
    + intros v Hv. by vm_compute in Hv.
  - exists c'. split; [exact Hrun|exact Hrow].
Defined.

(** An update of scene 9, which the two-scene store does not have. *)
Lemma update_of_absent_id_witness :
  update_scene 9 latitude_update two_scene_store =
  (Return (), commit two_scene_store).
Proof.
  destruct (update_of_absent_id two_scene_store 9 latitude_update)
    as (Hscene & _); [reflexivity|apply insert_non_empty|].
  apply Hscene; [|compute_done].
  unfold latitude_update. intros k v [<- _]%lookup_singleton_Some.
  compute_done.
Defined.

(** [update_scene(1, {"colour": "red"})] *)
Lemma update_unknown_column_witness :
  ∃ msg, update_scene 1 colour_update two_scene_store =
           (Raise (OperationalError msg), rollback two_scene_store).
Proof.
  destruct (update_unknown_column two_scene_store 1 colour_update "colour")
    as (Hscene & _).
  - by eexists.
  - unfold colour_update. intros k v [<- _]%lookup_singleton_Some.
    reflexivity.
  - apply Hscene. split; [|compute_done].
    intros col Hcol. revert col Hcol. apply Forall_forall.
    repeat constructor; compute_done.
Defined.

(** The detection of the one-scene store, deleted. *)
Lemma delete_detection_annotation_witness :
  ∃ c',
    delete_detection 1 one_scene_store = (Return (), c') ∧
    rows (view c') Detections = [] ∧
    rows (view c') Scenes = rows (view one_scene_store) Scenes ∧
    get_detection 1 c' = (Return None, c').
Proof.
  destruct (delete_detection_annotation one_scene_store 1)
    as [(c' & Hrun & _ & Hrows & Hothers & Hread) _]; [reflexivity|].
  exists c'. split; [done|]. split; [by rewrite Hrows|].
  split; [by apply Hothers|done].
Defined.

(** The one-scene store is a store opened on a new file. *)
Lemma store_invariant_witness :
  well_formed empty_database = true ∧
  reachable empty_database one_scene_store ∧
  well_formed (committed one_scene_store) = true ∧
  foreign_keys one_scene_store = false.
Proof.
  assert (reachable empty_database one_scene_store) as Hreachable
    by exact (reachable_call empty_database (__init__ empty_database)
                (IncrementalUpdate [first_record])
                (reachable_init empty_database)).
  destruct (store_invariant empty_database one_scene_store)
    as (Hcommitted & _ & Hoff); [reflexivity|exact Hreachable|].
  split; [reflexivity|]. by split.
Defined.

(** The scene of the one-scene store, deleted: its detection stays. *)
Lemma delete_scene_on_store_witness :
  ∃ c',
    delete_scene 1 one_scene_store = (Return (), c') ∧
    rows (view c') Detections = [stored_car] ∧
    get_scene 1 c' = (Return None, c').
Proof.
  destruct (delete_scene_on_store empty_database one_scene_store 1)
    as (c' & Hrun & _ & _ & Hothers & Hread).
  - reflexivity.
  - exact (reachable_call empty_database (__init__ empty_database)
             (IncrementalUpdate [first_record])
             (reachable_init empty_database)).
  - exists c'. split; [done|]. split; [by rewrite Hothers|done].
Defined.

(** A description for scene 42, which the one-scene store does not
    have. *)
Lemma inserts_on_store_unchecked_witness :
  (42 ∉ row_key <$> rows (view one_scene_store) Scenes) ∧
  ∃ c',
    add_scene_description 42 (VText "a street") VNull VNull one_scene_store =
      (Return (), c') ∧
    rows (committed c') SceneDescriptions =
      [[VInt 1; VInt 42; VText "a street"; VNull; VNull]].
Proof.
  split; [compute_done|].
  destruct (inserts_on_store_unchecked empty_database one_scene_store 42)
    as (_ & _ & Hdescription & _).
  - exact (reachable_call empty_database (__init__ empty_database)
             (IncrementalUpdate [first_record])
             (reachable_init empty_database)).
  - destruct (Hdescription (VText "a street") VNull VNull) as (c' & Hrun & Hrows).
    by exists c'.
Defined.

(** A range whose end comes before its start. *)
Lemma get_scenes_by_time_range_rows_witness :
  @get_scenes_by_time_range string iso_text
    "2024-12-31T23:59:59" "2024-01-01T00:00:00" training_store =
  (Return [], training_store).
Proof.
  destruct (@get_scenes_by_time_range_rows string iso_text
              "2024-12-31T23:59:59" "2024-01-01T00:00:00" training_store)
    as (found & Hread & _ & _ & Hreversed).
  by rewrite Hread, Hreversed.
Defined.

(** A row of three values under a description of two columns. *)
Lemma row_to_dict_zip_witness :
  _row_to_dict [VInt 1; VText "train"; VNull] (cursor_description Datasets) =
  Raise IndexError.
Proof.
  destruct (row_to_dict_zip [VInt 1; VText "train"; VNull]
              (cursor_description Datasets)) as (_ & Hlonger & _).
  apply Hlonger. simpl. lia.
Defined.

(** The batch of the two-scene store. *)
Lemma incremental_update_stores_batch_witness :
  ∃ c',
    incremental_update [first_record; described_record] new_store =
      (Return (), c') ∧
    pending c' = None ∧
    rows (view c') Scenes =
      [[VInt 1; VText "2024-01-01T10:00:00"; VNull; VNull; VNull;
        VText "cam-1"; VText "/media/1.jpg"]; second_scene] ∧
    record_rows_stored (view c') 2 described_record.
Proof.
  destruct (incremental_update_stores_batch [first_record; described_record]
              new_store) as (c' & Hrun & Hidle & Hrows & Hstored & _).
  - repeat apply Forall_cons_2; [reflexivity..|apply Forall_nil_2].
  - exists c'. split; [done|]. split; [done|]. split; [by rewrite Hrows|].
    exact (Hstored 1%nat described_record eq_refl).
Defined.

(** A batch whose first record has a malformed detection. *)
Lemma incremental_update_first_record_undone_witness :
  incremental_update [malformed_record; first_record] new_store =
  (Raise (KeyError "confidence"), rollback new_store).
Proof.
  apply (incremental_update_first_record_undone malformed_record
           [first_record] (scene_at "2024-01-02T10:00:00" "/media/2.jpg")
           [car_without_confidence] 1 (KeyError "confidence") new_store
           (add_scene (scene_at "2024-01-02T10:00:00" "/media/2.jpg")
              new_store).2); reflexivity.
Defined.
